(** * Camera actions panel: icon lookup, action execution and rendering

    A shallow embedding of [web/src/components/dynamic/ActionIconMap.ts] and
    [web/src/components/dynamic/CameraActions.tsx].  JavaScript code that
    writes to the console, shows toasts, updates the component state or throws
    is embedded in a small state-and-exception monad [JS] over a [World]
    record.  Strings are [string]; the [ICON_MAP] object is a [gmap] keyed by
    strings together with the members every object literal inherits from
    [Object.prototype].  The submit handler and the schema of
    [web/src/components/overlay/CustomNotificationDialog.tsx] are embedded
    the same way, in a module of their own with its own state record. *)

From Stdlib Require Import ZArith Ascii String.
From stdpp Require Import gmap strings list fin_maps sorting.
From Stdlib Require QArith.

Local Open Scope Z_scope.
Local Open Scope string_scope.

(** ** Strings and template literals *)

(** The double quote character that the template literals of the source
    put around names. *)
Definition dquote : string := String "034"%char EmptyString.

(** JavaScript truthiness of a [string | undefined] value: [undefined] and the
    empty string are falsy, every other string is truthy. *)
Definition truthy (s : option string) : bool :=
  match s with
  | None => false
  | Some EmptyString => false
  | Some (String _ _) => true
  end.

(** [a || b] for a [string | undefined] left operand and a string right
    operand. *)
Definition or_else (a : option string) (b : string) : string :=
  match a with
  | Some (String c s) => String c s
  | _ => b
  end.

(** ** The world the components act on *)

Inductive Severity := success_toast | error_toast.

(** One call of [toast.success] or [toast.error] of sonner. *)
Record Toast := mkToast {
  severity : Severity;
  text : string;
  position : string;
  duration : Z
}.

(** What a [catch] clause can receive; the payload is the error's description. *)
Inductive JsError := Error (description : string).

Inductive ConsoleEntry :=
| console_warn_entry (message : string)
| console_error_entry (message : string) (error : JsError).

Record World := mkWorld {
  executingAction : option string;   (* the useState cell of CameraActions *)
  posted : list string;              (* URLs given to axios.post, oldest first *)
  toasts : list Toast;               (* toasts shown, oldest first *)
  console : list ConsoleEntry        (* console output, oldest first *)
}.

Definition idle : World := mkWorld None [] [] [].

(** ** A monad for JavaScript statements *)

Inductive Completion (A : Type) :=
| Normal (a : A)
| Throw (e : JsError).
Arguments Normal {A} a.
Arguments Throw {A} e.

Definition JS (A : Type) : Type := World -> Completion A * World.

Definition throw {A} (e : JsError) : JS A := fun w => (Throw e, w).

#[export] Instance JS_ret : MRet JS := fun A a w => (Normal a, w).

#[export] Instance JS_bind : MBind JS := fun A B k m w =>
  match m w with
  | (Normal a, w') => k a w'
  | (Throw e, w') => (Throw e, w')
  end.

(** [try { body } catch (error) { handler } finally { finalizer }]: the
    handler runs when the body throws, the finalizer runs in every case, and
    the statement completes as the body or the handler did unless the
    finalizer itself throws. *)
Definition try_catch_finally {A}
    (body : JS A) (handler : JsError -> JS A) (finalizer : JS unit) : JS A :=
  fun w =>
    let '(c, w1) :=
      match body w with
      | (Normal a, w') => (Normal a, w')
      | (Throw e, w') => handler e w'
      end in
    match finalizer w1 with
    | (Normal _, w2) => (c, w2)
    | (Throw e, w2) => (Throw e, w2)
    end.

(** [xs.map(f)] for a callback with effects, left to right. *)
Fixpoint mapM {A B} (f : A -> JS B) (xs : list A) : JS (list B) :=
  match xs with
  | [] => mret []
  | x :: xs' => y ← f x; ys ← mapM f xs'; mret (y :: ys)
  end.

Definition exec {A} (m : JS A) (w : World) : World := snd (m w).
Definition result {A} (m : JS A) (w : World) : Completion A := fst (m w).

(** *** Primitive effects *)

Definition useState : JS (option string) :=
  fun w => (Normal (executingAction w), w).

Definition setExecutingAction (v : option string) : JS unit :=
  fun w => (Normal tt, mkWorld v (posted w) (toasts w) (console w)).

Definition console_warn (message : string) : JS unit :=
  fun w => (Normal tt,
            mkWorld (executingAction w) (posted w) (toasts w)
                    (console w ++ [console_warn_entry message])).

Definition console_error (message : string) (error : JsError) : JS unit :=
  fun w => (Normal tt,
            mkWorld (executingAction w) (posted w) (toasts w)
                    (console w ++ [console_error_entry message error])).

Definition toast (t : Toast) : JS unit :=
  fun w => (Normal tt,
            mkWorld (executingAction w) (posted w) (toasts w ++ [t]) (console w)).

Definition toast_success (message pos : string) (ms : Z) : JS unit :=
  toast (mkToast success_toast message pos ms).

Definition toast_error (message pos : string) (ms : Z) : JS unit :=
  toast (mkToast error_toast message pos ms).

(** ** ActionIconMap.ts *)

(** A value that [getActionIcon] can hand back: a component imported from
    react-icons under the given identifier, or a member that the [ICON_MAP]
    object literal inherits from [Object.prototype]. *)
Inductive IconType :=
| ReactIcon (identifier : string)
| ObjectPrototypeMember (property : string).

Definition FaPlay : IconType := ReactIcon "FaPlay".

(** An object literal made of shorthand properties [{ a, b, ... }]: each key
    is an identifier and its value is the binding of that identifier. *)
Definition shorthand (identifiers : list string) : gmap string IconType :=
  list_to_map ((fun x => (x, ReactIcon x)) <$> identifiers).

Definition ICON_MAP_keys : list string :=
  [ (* FontAwesome icons *)
    "FaLightbulb"; "FaBell"; "FaBullhorn"; "FaLock"; "FaUnlock"; "FaPlay";
    "FaPause"; "FaStop"; "FaPowerOff"; "FaHome"; "FaCar"; "FaCamera";
    "FaVolumeUp"; "FaVolumeMute"; "FaVideo"; "FaVideoSlash"; "FaBolt";
    "FaShieldAlt"; "FaEye"; "FaEyeSlash"; "FaToggleOn"; "FaToggleOff";
    "FaWifi"; "FaTimes"; "FaRecordVinyl"; "FaMicrophone";
    "FaMicrophoneSlash"; "FaPhoneVolume"; "FaClock";
    "FaExclamationTriangle"; "FaCheckCircle"; "FaTimesCircle"; "FaArrowUp";
    "FaArrowDown"; "FaArrowLeft"; "FaArrowRight"; "FaExpand"; "FaCompress";
    "FaSearchPlus"; "FaSearchMinus"; "FaCog"; "FaTrash"; "FaEdit"; "FaSave";
    "FaRedo"; "FaSync"; "FaDownload"; "FaUpload";
    (* Material Design icons *)
    "MdLightMode"; "MdDarkMode"; "MdNotifications"; "MdNotificationsOff";
    "MdSecurity"; "MdLock"; "MdLockOpen"; "MdAlarm"; "MdAlarmOff";
    "MdVolumeUp"; "MdVolumeOff"; "MdPlayArrow"; "MdPause"; "MdStop";
    "MdPowerSettingsNew"; "MdHome"; "MdDirectionsCar"; "MdCamera";
    "MdCameraAlt"; "MdFlashOn"; "MdFlashOff"; "MdVisibility";
    "MdVisibilityOff"; "MdWifi"; "MdWifiOff"; "MdMic"; "MdMicOff"; "MdPhone";
    "MdPhoneDisabled"; "MdWarning"; "MdCheckCircle"; "MdCancel";
    "MdKeyboardArrowUp"; "MdKeyboardArrowDown"; "MdKeyboardArrowLeft";
    "MdKeyboardArrowRight"; "MdFullscreen"; "MdFullscreenExit"; "MdZoomIn";
    "MdZoomOut"; "MdSettings"; "MdDelete"; "MdEdit"; "MdSave"; "MdRefresh";
    "MdSync"; "MdDownload"; "MdUpload";
    (* Lucide icons *)
    "LuLightbulb"; "LuBell"; "LuMegaphone"; "LuLock"; "LuLockOpen"; "LuPlay";
    "LuPause"; "LuSquare"; "LuPower"; "LuHouse"; "LuCar"; "LuCamera";
    "LuVolumeX"; "LuVolume2"; "LuVideo"; "LuVideoOff"; "LuZap"; "LuShield";
    "LuEye"; "LuEyeOff"; "LuToggleLeft"; "LuToggleRight"; "LuWifi";
    "LuWifiOff"; "LuMic"; "LuMicOff"; "LuPhone"; "LuPhoneOff"; "LuClock";
    "LuTriangleAlert"; "LuCircleCheck"; "LuCircleX"; "LuArrowUp";
    "LuArrowDown"; "LuArrowLeft"; "LuArrowRight"; "LuExpand"; "LuShrink";
    "LuZoomIn"; "LuZoomOut"; "LuSettings"; "LuTrash"; "LuPencil"; "LuSave";
    "LuRefreshCw"; "LuDownload"; "LuUpload" ].

(** The own properties of [ICON_MAP]. *)
Definition ICON_MAP : gmap string IconType := shorthand ICON_MAP_keys.

(** The properties of [Object.prototype], which [ICON_MAP], being an object
    literal, inherits.  Each of them holds a function or an object, so each
    is truthy. *)
Definition Object_prototype : list string :=
  [ "constructor"; "hasOwnProperty"; "isPrototypeOf"; "propertyIsEnumerable";
    "toLocaleString"; "toString"; "valueOf"; "__proto__";
    "__defineGetter__"; "__defineSetter__"; "__lookupGetter__";
    "__lookupSetter__" ].

(** [ICON_MAP[iconName]]: the own property if there is one, else the
    inherited one, else [undefined] (here [None]). *)
Definition ICON_MAP_get (iconName : string) : option IconType :=
  match ICON_MAP !! iconName with
  | Some c => Some c
  | None =>
      if bool_decide (iconName ∈ Object_prototype)
      then Some (ObjectPrototypeMember iconName)
      else None
  end.

Definition getActionIcon (iconName : option string) : JS IconType :=
  match iconName with
  | Some (String c s) =>
      let iconName := String c s in
      match ICON_MAP_get iconName with
      | Some IconComponent => mret IconComponent
      | None =>
          console_warn ("Icon " +:+ dquote +:+ iconName +:+ dquote
                        +:+ " not found in ICON_MAP. Using FaPlay as fallback.") ;;
          mret FaPlay
      end
  | _ => mret FaPlay
  end.

(** ** CameraActions.tsx *)

(** *** Configuration and the network *)

(** One configured action, as [CameraActions] reads it. *)
Module Action.
Record t := mk {
  name : string;
  icon : option string;
  standalone : bool
}.
End Action.

(** [camera.actions], whose list may be missing. *)
Module CameraActionsConfig.
Record t := mk { actions : option (list Action.t) }.
End CameraActionsConfig.

(** The part of [CameraConfig] that [CameraActions] reads. *)
Module CameraConfig.
Record t := mk {
  name : string;
  actions : option CameraActionsConfig.t
}.
End CameraConfig.

(** The body of the trigger endpoint's answer, [response.data]: the flag that
    [executeAction] tests and the message it may show.  (An answer without a
    body makes [response.data.success] throw inside the [try] block; the
    [catch] clause then runs as it does for a rejected promise, so such
    answers are covered by [Rejected] below.) *)
Record ResponseData := mkData {
  success : bool;
  message : option string
}.

Record AxiosResponse := mkResponse { data : ResponseData }.

(** How a promise ends. *)
Inductive Settled (A : Type) :=
| Fulfilled (value : A)
| Rejected (reason : JsError).
Arguments Fulfilled {A} value.
Arguments Rejected {A} reason.

(** [axios.post(url)]: the request goes out and a promise comes back; how the
    promise ends is decided by the network and is a parameter here. *)
Definition axios_post (url : string) (outcome : Settled AxiosResponse)
  : JS (Settled AxiosResponse) :=
  fun w => (Normal outcome,
            mkWorld (executingAction w) (posted w ++ [url]) (toasts w) (console w)).

(** [await p]: the value of a fulfilled promise, a throw for a rejected one. *)
Definition await {A} (p : Settled A) : JS A :=
  match p with
  | Fulfilled v => mret v
  | Rejected e => throw e
  end.

(** *** executeAction *)

Definition trigger_url (camera : CameraConfig.t) (actionName : string) : string :=
  "camera/" +:+ CameraConfig.name camera +:+ "/actions/" +:+ actionName +:+ "/trigger".

Definition executed_successfully (actionName : string) : string :=
  "Action " +:+ dquote +:+ actionName +:+ dquote +:+ " executed successfully".

Definition failed_to_execute (actionName : string) : string :=
  "Failed to execute action " +:+ dquote +:+ actionName +:+ dquote.

(** The statements of the [try] block that follow the [await]. *)
Definition report (actionName : string) (response : AxiosResponse) : JS unit :=
  if success (data response)
  then toast_success (executed_successfully actionName) "top-center" 3000
  else toast_error (or_else (message (data response)) (failed_to_execute actionName))
                   "top-center" 5000.

Definition on_error (actionName : string) (error : JsError) : JS unit :=
  console_error "Error executing camera action:" error;;
  toast_error (failed_to_execute actionName) "top-center" 5000.

Definition executeAction (camera : CameraConfig.t) (actionName : string)
    (outcome : Settled AxiosResponse) : JS unit :=
  setExecutingAction (Some actionName);;
  try_catch_finally
    (promise ← axios_post (trigger_url camera actionName) outcome;
     response ← await promise;
     report actionName response)
    (on_error actionName)
    (setExecutingAction None).

(** The two halves of one call of [executeAction], cut at the [await]: what
    runs at once when the function is called, and what runs when the promise
    has settled.  Other handlers can run in between. *)
Definition executeAction_until_await (camera : CameraConfig.t) (actionName : string)
    (outcome : Settled AxiosResponse) : JS (Settled AxiosResponse) :=
  setExecutingAction (Some actionName);;
  axios_post (trigger_url camera actionName) outcome.

Definition executeAction_after_await (actionName : string)
    (promise : Settled AxiosResponse) : JS unit :=
  try_catch_finally
    (response ← await promise; report actionName response)
    (on_error actionName)
    (setExecutingAction None).

(** *** Rendering *)

(** What an event handler built during one render does when it is called. *)
Inductive Handler :=
| calls_executeAction (actionName : string)
| does_nothing.

Module CameraFeatureToggle.
Record props := mk {
  className : string;
  variant : string;
  Icon : IconType;
  isActive : bool;
  title : string;
  onClick : Handler;
  disabled : bool
}.
End CameraFeatureToggle.

(** A [DropdownMenuItem] with its two children, the icon and the text. *)
Module DropdownMenuItem.
Record props := mk {
  key : string;
  className : string;
  disabled : bool;
  onSelect : Handler;
  ActionIcon : IconType;
  ActionIcon_className : string;
  label : string
}.
End DropdownMenuItem.

(** The [DropdownMenu] element: its trigger (a [div] holding [FaPlay]) and
    the items of its content. *)
Module DropdownMenu.
Record props := mk {
  key : string;
  trigger_className : string;
  trigger_icon : IconType;
  trigger_icon_className : string;
  content : list DropdownMenuItem.props
}.
End DropdownMenu.

Inductive Element :=
| CameraFeatureToggle_ (p : CameraFeatureToggle.props)
| DropdownMenu_ (p : DropdownMenu.props).

(** What [CameraActions] returns. *)
Inductive ReactNode :=
| null
| element (e : Element)
| array (es : list Element).

(** [cond && "classes"] as an argument of [cn]: the string, or [false]
    (here [None]). *)
Definition and_class (cond : bool) (classes : string) : option string :=
  if cond then Some classes else None.

Definition executing_label (actionName : string) : string :=
  "Executing " +:+ actionName +:+ "...".

Section Render.

(** [cn] of [@/lib/utils] joins the class names it is given; it only
    produces the [className] strings and is taken as a parameter. *)
Variable cn : list (option string) -> string.

Definition standaloneActions (actions : list Action.t) : list Action.t :=
  filter (fun action => Action.standalone action = true) actions.

Definition dropdownActions (actions : list Action.t) : list Action.t :=
  filter (fun action => negb (Action.standalone action) = true) actions.

(** The callback of [dropdownActions.map] inside [renderDropdownMenu]. *)
Definition renderDropdownMenuItem (cameraEnabled : bool)
    (executingAction : option string) (action : Action.t)
  : JS DropdownMenuItem.props :=
  let isExecuting := bool_decide (executingAction = Some (Action.name action)) in
  ActionIcon ← getActionIcon (Action.icon action);
  mret (DropdownMenuItem.mk
          (Action.name action)
          (cn [ Some "cursor-pointer flex items-center gap-2";
                and_class isExecuting "animate-pulse";
                and_class (negb cameraEnabled) "opacity-50 cursor-not-allowed" ])
          (negb cameraEnabled || isExecuting)
          (if cameraEnabled && negb isExecuting
           then calls_executeAction (Action.name action)
           else does_nothing)
          ActionIcon
          "size-4"
          (if isExecuting
           then executing_label (Action.name action)
           else Action.name action)).

Definition renderDropdownMenu (fullscreen cameraEnabled : bool)
    (executingAction : option string) (dropdownActions : list Action.t)
  : JS (option Element) :=
  if (length dropdownActions =? 0)%nat then mret None
  else
    items ← mapM (renderDropdownMenuItem cameraEnabled executingAction)
                 dropdownActions;
    mret (Some (DropdownMenu_
      (DropdownMenu.mk
         "dropdown-menu"
         (cn [ Some "flex flex-col items-center justify-center rounded-lg bg-secondary p-2 text-secondary-foreground md:p-0";
               and_class fullscreen
                 "rounded-full bg-gradient-to-br from-gray-400 to-gray-500 bg-gray-500" ])
         FaPlay
         "size-5 text-secondary-foreground md:m-[6px]"
         items))).

(** The callback of [standaloneActions.map]. *)
Definition renderStandalone (fullscreen cameraEnabled : bool)
    (executingAction : option string) (action : Action.t)
  : JS Element :=
  let isExecuting := bool_decide (executingAction = Some (Action.name action)) in
  ActionIcon ← getActionIcon (Action.icon action);
  mret (CameraFeatureToggle_
          (CameraFeatureToggle.mk
             (cn [ Some "p-2 md:p-0"; and_class isExecuting "animate-pulse" ])
             (if fullscreen then "overlay" else "primary")
             ActionIcon
             isExecuting
             (if isExecuting
              then executing_label (Action.name action)
              else Action.name action)
             (calls_executeAction (Action.name action))
             (negb cameraEnabled || isExecuting))).

(** [[...standaloneActions.map(...), renderDropdownMenu()].filter(Boolean)]:
    elements are truthy, the [null] of an empty dropdown is dropped. *)
Definition components (fullscreen cameraEnabled : bool)
    (executingAction : option string) (actions : list Action.t)
  : JS (list Element) :=
  toggles ← mapM (renderStandalone fullscreen cameraEnabled executingAction)
                 (standaloneActions actions);
  menu ← renderDropdownMenu fullscreen cameraEnabled executingAction
                            (dropdownActions actions);
  mret (omap id ((Some <$> toggles) ++ [menu])%list).

Definition CameraActions (camera : CameraConfig.t)
    (fullscreen cameraEnabled : bool) : JS ReactNode :=
  executingAction ← useState;
  match CameraConfig.actions camera ≫= CameraActionsConfig.actions with
  | None => mret null
  | Some actions =>
      if (length actions =? 0)%nat then mret null
      else
        components ← components fullscreen cameraEnabled executingAction actions;
        if (length components =? 1)%nat
        then mret (match components !! 0%nat with
                   | Some c => element c
                   | None => null
                   end)
        else mret (array components)
  end.

End Render.


(** ** Observations used in the statements *)

(** [w] with the entries [ds] added to the console and nothing else changed. *)
Definition log (ds : list ConsoleEntry) (w : World) : World :=
  mkWorld (executingAction w) (posted w) (toasts w) (console w ++ ds).

(** The value and the console output of [getActionIcon], read off a run in
    the idle world. *)
Definition resolved (iconName : option string) : IconType :=
  match result (getActionIcon iconName) idle with
  | Normal c => c
  | Throw _ => FaPlay
  end.

Definition warnings (iconName : option string) : list ConsoleEntry :=
  console (exec (getActionIcon iconName) idle).

Definition not_found_warning (iconName : string) : ConsoleEntry :=
  console_warn_entry
    ("Icon " +:+ dquote +:+ iconName +:+ dquote
     +:+ " not found in ICON_MAP. Using FaPlay as fallback.").

(** The action list of a camera, empty when none is configured. *)
Definition configured (camera : CameraConfig.t) : list Action.t :=
  default [] (CameraConfig.actions camera ≫= CameraActionsConfig.actions).

Definition elements (n : ReactNode) : list Element :=
  match n with
  | null => []
  | element e => [e]
  | array es => es
  end.

Definition toggles_of (es : list Element) : list CameraFeatureToggle.props :=
  omap (fun e => match e with CameraFeatureToggle_ p => Some p | _ => None end) es.

Definition menus_of (es : list Element) : list DropdownMenu.props :=
  omap (fun e => match e with DropdownMenu_ p => Some p | _ => None end) es.

(** The items of the menus among the elements of a node. *)
Definition menu_items (n : ReactNode) : list DropdownMenuItem.props :=
  flat_map DropdownMenu.content (menus_of (elements n)).

(** The label and the disabled flag that the panel is to give the control of
    an action, as functions of the camera-enabled flag and the execution
    state. *)
Definition is_executing (state : option string) (action : Action.t) : bool :=
  bool_decide (state = Some (Action.name action)).

Definition label_for (state : option string) (action : Action.t) : string :=
  if is_executing state action
  then executing_label (Action.name action)
  else Action.name action.

Definition disabled_for (cameraEnabled : bool) (state : option string)
    (action : Action.t) : bool :=
  negb cameraEnabled || is_executing state action.

(** What the panel is to show for one standalone action: a
    [CameraFeatureToggle] with the label, flag and icon above, whose click
    handler calls [executeAction] for the action. *)
Definition toggle_presents (fullscreen cameraEnabled : bool)
    (state : option string) (action : Action.t) (e : Element) : Prop :=
  exists p,
    e = CameraFeatureToggle_ p
    /\ CameraFeatureToggle.title p = label_for state action
    /\ CameraFeatureToggle.disabled p = disabled_for cameraEnabled state action
    /\ CameraFeatureToggle.onClick p = calls_executeAction (Action.name action)
    /\ CameraFeatureToggle.Icon p = resolved (Action.icon action)
    /\ CameraFeatureToggle.isActive p = is_executing state action
    /\ CameraFeatureToggle.variant p = (if fullscreen then "overlay" else "primary").

(** What the panel is to show for one grouped action: a menu item with the
    same label, flag and icon, whose select handler calls [executeAction] for
    the action unless the item is disabled. *)
Definition item_presents (cameraEnabled : bool) (state : option string)
    (action : Action.t) (i : DropdownMenuItem.props) : Prop :=
  DropdownMenuItem.key i = Action.name action
  /\ DropdownMenuItem.label i = label_for state action
  /\ DropdownMenuItem.disabled i = disabled_for cameraEnabled state action
  /\ DropdownMenuItem.onSelect i
     = (if disabled_for cameraEnabled state action
        then does_nothing
        else calls_executeAction (Action.name action))
  /\ DropdownMenuItem.ActionIcon i = resolved (Action.icon action).

(** The console output of rendering the controls of [actions]. *)
Definition render_warnings (actions : list Action.t) : list ConsoleEntry :=
  flat_map (fun action => warnings (Action.icon action)) actions.

(** A stand-in for [cn] and a camera with the given actions, for examples. *)
Definition cn_join (l : list (option string)) : string :=
  String.concat " " (omap id l).

Definition front (l : list Action.t) : CameraConfig.t :=
  CameraConfig.mk "front" (Some (CameraActionsConfig.mk (Some l))).

(** ** The rest of ActionIconMap.ts *)

(** The order of [Array.prototype.sort] without a comparator; the names
    compared here are ASCII identifiers, for which it is the order of the
    character codes. *)
Definition string_le (a b : string) : Prop := String.leb a b = true.

#[export] Instance string_le_dec : RelDecision string_le.
Proof. intros a b. unfold string_le. apply _. Defined.

(** [Object.keys(ICON_MAP).sort()]: the own keys of the literal, sorted. *)
Definition getAvailableIcons : list string :=
  merge_sort string_le ICON_MAP_keys.

(** The categories, in the order of the literal. *)
Definition ICON_CATEGORIES : list (string * list string) :=
  [
    ("Lighting",
     [ "FaLightbulb"; "MdLightMode"; "MdDarkMode"; "LuLightbulb"; "MdFlashOn";
       "MdFlashOff" ]);
    ("Security",
     [ "FaLock"; "FaUnlock"; "FaShield"; "MdLock"; "MdLockOpen"; "MdSecurity";
       "LuLock"; "LuUnlock"; "LuShield" ]);
    ("Audio/Video",
     [ "FaCamera"; "FaVideo"; "FaVideoSlash"; "FaVolumeUp"; "FaVolumeMute";
       "FaMicrophone"; "FaMicrophoneSlash"; "MdCamera"; "MdCameraAlt";
       "MdVolumeUp"; "MdVolumeOff"; "LuCamera"; "LuVideo"; "LuVideoOff";
       "LuVolume2"; "LuVolumeX" ]);
    ("Alerts",
     [ "FaBell"; "FaSiren"; "FaAlarmClock"; "FaExclamationTriangle";
       "MdNotifications"; "MdAlarm"; "MdWarning"; "LuBell"; "LuSiren";
       "LuAlarmClock"; "LuAlertTriangle" ]);
    ("Power/Control",
     [ "FaPowerOff"; "FaPlay"; "FaPause"; "FaStop"; "FaToggleOn";
       "FaToggleOff"; "MdPowerSettingsNew"; "MdPlayArrow"; "MdPause"; "MdStop";
       "LuPower"; "LuPlay"; "LuPause"; "LuStop"; "LuToggleLeft";
       "LuToggleRight" ]);
    ("Network",
     [ "FaWifi"; "FaWifiSlash"; "FaPhone"; "MdWifi"; "MdWifiOff"; "MdPhone";
       "MdPhoneDisabled"; "LuWifi"; "LuWifiOff"; "LuPhone"; "LuPhoneOff" ]);
    ("Navigation",
     [ "FaArrowUp"; "FaArrowDown"; "FaArrowLeft"; "FaArrowRight"; "FaExpand";
       "FaCompress"; "MdKeyboardArrowUp"; "MdKeyboardArrowDown";
       "MdKeyboardArrowLeft"; "MdKeyboardArrowRight"; "MdFullscreen";
       "MdFullscreenExit"; "LuArrowUp"; "LuArrowDown"; "LuArrowLeft";
       "LuArrowRight"; "LuExpand"; "LuShrink" ]);
    ("General",
     [ "FaHome"; "FaCar"; "FaEye"; "FaEyeSlash"; "FaCog"; "MdHome";
       "MdDirectionsCar"; "MdVisibility"; "MdVisibilityOff"; "MdSettings";
       "LuHome"; "LuCar"; "LuEye"; "LuEyeOff"; "LuSettings" ]) ].

(** The names that some category lists. *)
Definition categorized : list string :=
  flat_map snd ICON_CATEGORIES.

(** The listed names that were replaced in [ICON_MAP] (see the comments of
    its imports) and are still listed under their old spelling. *)
Definition stale_names : list string :=
  [ "FaShield"; "LuUnlock"; "FaSiren"; "FaAlarmClock"; "LuSiren";
    "LuAlarmClock"; "LuAlertTriangle"; "LuStop"; "FaWifiSlash"; "FaPhone";
    "LuHome" ].

(** ** What a render shows, apart from class names *)

(** The name behind the one warning that rendering an action writes, if it
    writes one: the icon name when it is not empty, not a key of [ICON_MAP]
    and not a property of [Object.prototype]. *)
Definition unresolved_icon (action : Action.t) : option string :=
  match Action.icon action with
  | Some name =>
      if decide (name <> EmptyString
                 /\ (name ∉ getAvailableIcons) /\ (name ∉ Object_prototype))
      then Some name
      else None
  | None => None
  end.

(** A toggle without its [className] and [variant], and a menu without the
    class names of its trigger and items. *)
Record ToggleBehaviour := mkToggleBehaviour {
  shown_title : string;
  shown_disabled : bool;
  shown_onClick : Handler;
  shown_Icon : IconType;
  shown_isActive : bool
}.

Record ItemBehaviour := mkItemBehaviour {
  item_key : string;
  item_label : string;
  item_disabled : bool;
  item_onSelect : Handler;
  item_icon : IconType
}.

Inductive ElementBehaviour :=
| toggle_behaviour (b : ToggleBehaviour)
| menu_behaviour (key : string) (trigger_icon : IconType) (items : list ItemBehaviour).

Inductive NodeBehaviour :=
| shows_null
| shows_element (e : ElementBehaviour)
| shows_array (es : list ElementBehaviour).

Definition behaviour_of_item (i : DropdownMenuItem.props) : ItemBehaviour :=
  mkItemBehaviour (DropdownMenuItem.key i) (DropdownMenuItem.label i)
    (DropdownMenuItem.disabled i) (DropdownMenuItem.onSelect i)
    (DropdownMenuItem.ActionIcon i).

Definition behaviour_of_element (e : Element) : ElementBehaviour :=
  match e with
  | CameraFeatureToggle_ p =>
      toggle_behaviour
        (mkToggleBehaviour (CameraFeatureToggle.title p)
           (CameraFeatureToggle.disabled p) (CameraFeatureToggle.onClick p)
           (CameraFeatureToggle.Icon p) (CameraFeatureToggle.isActive p))
  | DropdownMenu_ m =>
      menu_behaviour (DropdownMenu.key m) (DropdownMenu.trigger_icon m)
        (behaviour_of_item <$> DropdownMenu.content m)
  end.

Definition behaviour_of_node (n : ReactNode) : NodeBehaviour :=
  match n with
  | null => shows_null
  | element e => shows_element (behaviour_of_element e)
  | array es => shows_array (behaviour_of_element <$> es)
  end.

(** What one render returns and where it leaves the world; [None] stands for
    a render that throws. *)
Definition rendered (m : JS ReactNode) (w : World) : option NodeBehaviour :=
  match result m w with
  | Normal n => Some (behaviour_of_node n)
  | Throw _ => None
  end.

(** The number of elements the panel has for a list of actions: one per
    standalone action and one menu for the grouped ones, if there are any. *)
Definition element_count (actions : list Action.t) : nat :=
  length (standaloneActions actions)
  + match dropdownActions actions with [] => 0 | _ :: _ => 1 end.

(** The behaviour that the toggle and the menu item of an action are to
    have, and the elements of a whole action list. *)
Definition expected_toggle (cameraEnabled : bool) (state : option string)
    (action : Action.t) : ToggleBehaviour :=
  mkToggleBehaviour (label_for state action)
    (disabled_for cameraEnabled state action)
    (calls_executeAction (Action.name action))
    (resolved (Action.icon action))
    (is_executing state action).

Definition expected_item (cameraEnabled : bool) (state : option string)
    (action : Action.t) : ItemBehaviour :=
  mkItemBehaviour (Action.name action) (label_for state action)
    (disabled_for cameraEnabled state action)
    (if disabled_for cameraEnabled state action
     then does_nothing
     else calls_executeAction (Action.name action))
    (resolved (Action.icon action)).

Definition expected_elements (cameraEnabled : bool) (state : option string)
    (actions : list Action.t) : list ElementBehaviour :=
  ((fun a => toggle_behaviour (expected_toggle cameraEnabled state a))
     <$> standaloneActions actions)
  ++ match dropdownActions actions with
     | [] => []
     | a :: l =>
         [menu_behaviour "dropdown-menu" FaPlay
            (expected_item cameraEnabled state <$> (a :: l))]
     end.

(** ** CustomNotificationDialog.tsx *)

Module CustomNotificationDialog.

(** *** Values *)

(** A JavaScript number as the schema sees it: a finite double is the
    rational it denotes; [NaN] and the two infinities are apart. *)
Inductive JsNumber :=
| Finite (q : QArith_base.Q)
| NaN
| Infinity (negative : bool).

(** [Number.isInteger]. *)
Definition isInteger (n : JsNumber) : bool :=
  match n with
  | Finite q =>
      (QArith_base.Qnum q mod Z.pos (QArith_base.Qden q) =? 0)%Z
  | _ => false
  end.

(** [lo <= n && n <= hi] for integer bounds. *)
Definition between (lo hi : Z) (n : JsNumber) : bool :=
  match n with
  | Finite q =>
      QArith_base.Qle_bool (QArith_base.inject_Z lo) q
      && QArith_base.Qle_bool q (QArith_base.inject_Z hi)
  | _ => false
  end.

(** The [length] of a JavaScript string, in UTF-16 code units.  Strings are
    kept as their UTF-8 bytes: the first byte of a character of one, two or
    three bytes stands for one code unit, the first byte of a character of
    four bytes for the two units of a surrogate pair, and a continuation byte
    for none. *)
Definition code_units (c : ascii) : nat :=
  let n := nat_of_ascii c in
  if (n <? 128)%nat then 1%nat
  else if (n <? 192)%nat then 0%nat
  else if (n <? 240)%nat then 1%nat
  else 2%nat.

Fixpoint js_length (s : string) : nat :=
  match s with
  | EmptyString => 0%nat
  | String c s' => (code_units c + js_length s')%nat
  end.

(** [NotificationFormValues]. *)
Record NotificationFormValues := mkValues {
  title : string;
  message : string;
  direct_url : option string;
  image : option string;
  ttl : option JsNumber
}.

Definition defaultValues : NotificationFormValues :=
  mkValues EmptyString EmptyString (Some EmptyString) (Some EmptyString)
           (Some (Finite (QArith_base.inject_Z 0))).

(** *** notificationSchema *)

(** What the form shows under its fields after validation: for [title] and
    [message] the text given in the schema for the first check that fails,
    for [ttl] whether it failed.  ([direct_url] and [image] take any
    string.) *)
Record FieldErrors := mkErrors {
  title_error : option string;
  message_error : option string;
  ttl_error : bool
}.

Definition no_errors : FieldErrors := mkErrors None None false.

(** [z.string().min(lo, too_short).max(hi, too_long)]. *)
Definition string_min_max (lo : nat) (too_short : string) (hi : nat)
    (too_long : string) (s : string) : option string :=
  if (js_length s <? lo)%nat then Some too_short
  else if (hi <? js_length s)%nat then Some too_long
  else None.

(** [z.number().int().min(0).max(86400).optional()]. *)
Definition ttl_invalid (n : option JsNumber) : bool :=
  match n with
  | None => false
  | Some n => negb (isInteger n && between 0 86400 n)
  end.

Definition notificationSchema (values : NotificationFormValues) : FieldErrors :=
  mkErrors
    (string_min_max 1 "Title is required" 200 "Title too long" (title values))
    (string_min_max 1 "Message is required" 500 "Message too long" (message values))
    (ttl_invalid (ttl values)).

Definition is_valid (e : FieldErrors) : bool :=
  match e with
  | mkErrors None None false => true
  | _ => false
  end.

(** *** The dialog and the network *)

(** One call of [toast.success] or [toast.error]; the text of a success
    toast is whatever [response.data.message] holds, maybe [undefined]. *)
Record Notice := mkNotice {
  severity : Severity;
  text : option string;
  position : string
}.

Record Dialog := mkDialog {
  open : bool;                                    (* useState(false) *)
  isLoading : bool;                               (* useState(false) *)
  values : NotificationFormValues;                (* the fields of the form *)
  errors : FieldErrors;                           (* the errors of the form *)
  posted : list (string * NotificationFormValues);  (* axios.post calls *)
  toasts : list Notice
}.

Definition closed : Dialog :=
  mkDialog false false defaultValues no_errors [] [].

(** A body whose [message] can be read; the message may be missing. *)
Record Body := mkBody { body_message : option string }.

(** An answer: [data] is [None] when the body is [null] or [undefined], so
    that reading [data.message] throws. *)
Record Response := mkResponse {
  status : Z;
  data : option Body
}.

(** What a [catch] clause can receive: an error of axios, with the answer if
    there was one, or the [TypeError] of reading a property of [null]. *)
Inductive Thrown :=
| AxiosError (response : option Response)
| TypeError.

(** [error.response?.data?.message]. *)
Definition error_message (error : Thrown) : option string :=
  match error with
  | AxiosError (Some response) =>
      match data response with
      | Some body => body_message body
      | None => None
      end
  | _ => None
  end.

Inductive Outcome (A : Type) :=
| Returned (a : A)
| Threw (e : Thrown).
Arguments Returned {A} a.
Arguments Threw {A} e.

Inductive Promise (A : Type) :=
| Resolved (value : A)
| Failed (reason : Thrown).
Arguments Resolved {A} value.
Arguments Failed {A} reason.

(** *** Statements *)

Definition M (A : Type) : Type := Dialog -> Outcome A * Dialog.

#[export] Instance M_ret : MRet M := fun A a d => (Returned a, d).

#[export] Instance M_bind : MBind M := fun A B k m d =>
  match m d with
  | (Returned a, d') => k a d'
  | (Threw e, d') => (Threw e, d')
  end.

Definition throw {A} (e : Thrown) : M A := fun d => (Threw e, d).

Definition try_catch_finally {A}
    (body : M A) (handler : Thrown -> M A) (finalizer : M unit) : M A :=
  fun d =>
    let '(c, d1) :=
      match body d with
      | (Returned a, d') => (Returned a, d')
      | (Threw e, d') => handler e d'
      end in
    match finalizer d1 with
    | (Returned _, d2) => (c, d2)
    | (Threw e, d2) => (Threw e, d2)
    end.

Definition run {A} (m : M A) (d : Dialog) : Dialog := snd (m d).

Definition setOpen (v : bool) : M unit :=
  fun d => (Returned tt,
            mkDialog v (isLoading d) (values d) (errors d) (posted d) (toasts d)).

Definition setIsLoading (v : bool) : M unit :=
  fun d => (Returned tt,
            mkDialog (open d) v (values d) (errors d) (posted d) (toasts d)).

(** [form.reset()]: the fields go back to [defaultValues], the errors go. *)
Definition form_reset : M unit :=
  fun d => (Returned tt,
            mkDialog (open d) (isLoading d) defaultValues no_errors
                     (posted d) (toasts d)).

Definition set_errors (e : FieldErrors) : M unit :=
  fun d => (Returned tt,
            mkDialog (open d) (isLoading d) (values d) e (posted d) (toasts d)).

Definition toast (n : Notice) : M unit :=
  fun d => (Returned tt,
            mkDialog (open d) (isLoading d) (values d) (errors d) (posted d)
                     (toasts d ++ [n])).

Definition axios_post (url : string) (body : NotificationFormValues)
    (outcome : Promise Response) : M (Promise Response) :=
  fun d => (Returned outcome,
            mkDialog (open d) (isLoading d) (values d) (errors d)
                     (posted d ++ [(url, body)]) (toasts d)).

Definition await {A} (p : Promise A) : M A :=
  match p with
  | Resolved v => mret v
  | Failed e => throw e
  end.

(** [response.data.message]. *)
Definition read_message (response : Response) : M (option string) :=
  match data response with
  | Some body => mret (body_message body)
  | None => throw TypeError
  end.

(** *** onSubmit *)

(** The statements of the [try] block that follow the [await]. *)
Definition on_response (response : Response) : M unit :=
  if (status response =? 200)%Z
  then
    message ← read_message response;
    toast (mkNotice success_toast message "top-center");;
    form_reset;;
    setOpen false
  else mret tt.

Definition on_error (error : Thrown) : M unit :=
  let errorMessage := or_else (error_message error) "Failed to send notification" in
  toast (mkNotice error_toast (Some errorMessage) "top-center").

Definition onSubmit (values : NotificationFormValues)
    (outcome : Promise Response) : M unit :=
  setIsLoading true;;
  try_catch_finally
    (promise ← axios_post "/api/notifications/send" values outcome;
     response ← await promise;
     on_response response)
    on_error
    (setIsLoading false).


Definition onSubmit_after_await (promise : Promise Response) : M unit :=
  try_catch_finally
    (response ← await promise; on_response response)
    on_error
    (setIsLoading false).

(** [form.handleSubmit(onSubmit)], run when the form is submitted: the
    fields are validated with the schema (through [zodResolver]); when there
    is an error the errors are shown and [onSubmit] is not called, otherwise
    the errors are cleared and [onSubmit] gets the fields. *)
Definition handleSubmit (outcome : Promise Response) : M unit :=
  fun d =>
    let found := notificationSchema (values d) in
    if is_valid found
    then (set_errors no_errors;; onSubmit (values d) outcome) d
    else set_errors found d.

End CustomNotificationDialog.

(** ** Basic facts about the monad and the world *)

Lemma log_nil w : log [] w = w.
Proof. destruct w; unfold log; simpl. by rewrite app_nil_r. Qed.

Lemma log_log ds1 ds2 w : log ds2 (log ds1 w) = log (ds1 ++ ds2) w.
Proof. unfold log; simpl. by rewrite app_assoc. Qed.

Lemma bind_normal {A B} (m : JS A) (k : A -> JS B) a w w' :
  m w = (Normal a, w') -> (m ≫= k) w = k a w'.
Proof. intros H. unfold mbind, JS_bind. by rewrite H. Qed.

Lemma empty_name_not_in_ICON_MAP : ICON_MAP !! EmptyString = None.
Proof. vm_compute. reflexivity. Qed.

Lemma ICON_MAP_lookup_Some name r :
  ICON_MAP !! name = Some r -> r = ReactIcon name /\ name ∈ ICON_MAP_keys.
Proof.
  unfold ICON_MAP, shorthand. intros H.
  apply elem_of_list_to_map_2 in H.
  apply list_elem_of_fmap in H as (x & Hx & Hin).
  inversion Hx; subst. auto.
Qed.

(** ** getActionIcon *)

(** [getActionIcon] never throws, and all it does to the world is write to
    the console. *)
Lemma getActionIcon_run iconName w :
  getActionIcon iconName w = (Normal (resolved iconName), log (warnings iconName) w).
Proof.
  unfold resolved, warnings, result, exec, getActionIcon.
  destruct iconName as [[|c s]|]; try (cbn; by rewrite log_nil).
  destruct (ICON_MAP_get (String c s)) as [r|]; cbn.
  - by rewrite log_nil.
  - reflexivity.
Qed.

Lemma getActionIcon_absent w : getActionIcon None w = (Normal FaPlay, w).
Proof. reflexivity. Qed.

Lemma getActionIcon_empty w : getActionIcon (Some EmptyString) w = (Normal FaPlay, w).
Proof. reflexivity. Qed.

Lemma getActionIcon_mapped name r w :
  ICON_MAP !! name = Some r ->
  getActionIcon (Some name) w = (Normal r, w).
Proof.
  intros H. destruct name as [|c s].
  - rewrite empty_name_not_in_ICON_MAP in H. discriminate.
  - unfold getActionIcon, ICON_MAP_get. by rewrite H.
Qed.

Lemma getActionIcon_unknown name w :
  name <> EmptyString ->
  ICON_MAP !! name = None ->
  name ∉ Object_prototype ->
  getActionIcon (Some name) w = (Normal FaPlay, log [not_found_warning name] w).
Proof.
  intros Hne Hmap Hproto. destruct name as [|c s].
  - exfalso. apply Hne. reflexivity.
  - unfold getActionIcon, ICON_MAP_get. rewrite Hmap.
    rewrite (bool_decide_eq_false_2 _ Hproto). reflexivity.
Qed.

(** A name that [Object.prototype] defines is answered with the inherited
    member, without a warning. *)
Lemma getActionIcon_inherited name w :
  name ∈ Object_prototype ->
  getActionIcon (Some name) w = (Normal (ObjectPrototypeMember name), w).
Proof.
  intros Hin. unfold Object_prototype in Hin.
  repeat (apply elem_of_cons in Hin as [->|Hin]; [vm_compute; reflexivity|]).
  by apply elem_of_nil in Hin.
Qed.

Example getActionIcon_LuHouse :
  getActionIcon (Some "LuHouse") idle = (Normal (ReactIcon "LuHouse"), idle).
Proof. vm_compute. reflexivity. Qed.

Example getActionIcon_FaSiren :
  getActionIcon (Some "FaSiren") idle
  = (Normal FaPlay, log [not_found_warning "FaSiren"] idle).
Proof. vm_compute. reflexivity. Qed.

Example getActionIcon_toString :
  getActionIcon (Some "toString") idle
  = (Normal (ObjectPrototypeMember "toString"), idle).
Proof. vm_compute. reflexivity. Qed.

(** C4, as the code has it.  For every icon name [getActionIcon] returns
    without throwing and changes nothing but the console.  An absent name and
    the empty name give [FaPlay] and no console output; a key of [ICON_MAP]
    gives the component imported under that name and no console output; a
    non-empty name that is neither a key of [ICON_MAP] nor a property of
    [Object.prototype] gives [FaPlay] and exactly one warning. *)
Theorem getActionIcon_resolves (iconName : option string) (w : World) :
  exists c ds,
    getActionIcon iconName w = (Normal c, log ds w)
    /\ (iconName = None \/ iconName = Some EmptyString -> c = FaPlay /\ ds = [])
    /\ (forall name r,
          iconName = Some name -> ICON_MAP !! name = Some r ->
          c = r /\ r = ReactIcon name /\ ds = [])
    /\ (forall name,
          iconName = Some name -> name <> EmptyString ->
          ICON_MAP !! name = None -> name ∉ Object_prototype ->
          c = FaPlay /\ ds = [not_found_warning name]).
Proof.
  exists (resolved iconName), (warnings iconName).
  split; [apply getActionIcon_run|].
  pose proof (getActionIcon_run iconName idle) as Hrun.
  split; [|split].
  - intros [->| ->]; split; reflexivity.
  - intros name r -> Hr.
    rewrite (getActionIcon_mapped _ _ _ Hr) in Hrun.
    destruct (ICON_MAP_lookup_Some _ _ Hr) as [Hicon _].
    injection Hrun as Hc Hds.
    split; [exact (eq_sym Hc)|]. split; [exact Hicon|exact (eq_sym Hds)].
  - intros name -> Hne Hmap Hproto.
    rewrite (getActionIcon_unknown _ _ Hne Hmap Hproto) in Hrun.
    injection Hrun as Hc Hds.
    split; [exact (eq_sym Hc)|exact (eq_sym Hds)].
Qed.

(** C4, counterexample to the claim as stated: the empty string is a name
    that is present and is not a key of [ICON_MAP], and resolving it writes
    nothing to the console, where the claim has exactly one diagnostic.
    (The name [toString] is not a key of [ICON_MAP] either; for it
    [getActionIcon] returns what the object inherits, which is not [FaPlay],
    and writes nothing.) *)
Lemma getActionIcon_empty_name_not_warned :
  (ICON_MAP !! EmptyString = None
   /\ getActionIcon (Some EmptyString) idle = (Normal FaPlay, idle)
   /\ length (console (exec (getActionIcon (Some EmptyString)) idle)) = 0%nat)
  /\ (ICON_MAP !! "toString" = None
      /\ getActionIcon (Some "toString") idle
         = (Normal (ObjectPrototypeMember "toString"), idle)
      /\ ObjectPrototypeMember "toString" <> FaPlay).
Proof.
  split.
  - split; [apply empty_name_not_in_ICON_MAP|]. split; reflexivity.
  - split; [vm_compute; reflexivity|].
    split; [vm_compute; reflexivity|discriminate].
Qed.

(** C9.  The empty string is not a key of [ICON_MAP], yet [getActionIcon]
    treats it as it treats an absent name: in every world it returns [FaPlay]
    and leaves the world, the console included, as it was. *)
Theorem getActionIcon_empty_as_absent (w : World) :
  ICON_MAP !! EmptyString = None
  /\ getActionIcon (Some EmptyString) w = getActionIcon None w
  /\ getActionIcon (Some EmptyString) w = (Normal FaPlay, w)
  /\ console (exec (getActionIcon (Some EmptyString)) w) = console w.
Proof.
  split; [apply empty_name_not_in_ICON_MAP|].
  repeat split; reflexivity.
Qed.

(** ** executeAction *)

(** The ways a call can end: a success answer, a failure answer, a
    rejection. *)
Ltac by_outcome outcome :=
  let msg := fresh "msg" in
  let error := fresh "error" in
  destruct outcome as [[[[] msg]]|error].

Lemma executeAction_until_await_run camera actionName outcome w :
  executeAction_until_await camera actionName outcome w
  = (Normal outcome,
     mkWorld (Some actionName) (posted w ++ [trigger_url camera actionName])
             (toasts w) (console w)).
Proof. reflexivity. Qed.

(** Where a call of [executeAction] leaves the world once the promise has
    settled, for each way the promise can end. *)
Lemma executeAction_after_await_run actionName promise w :
  executeAction_after_await actionName promise w
  = (Normal tt,
     match promise with
     | Fulfilled response =>
         if success (data response)
         then mkWorld None (posted w)
                (toasts w ++ [mkToast success_toast (executed_successfully actionName)
                                      "top-center" 3000])
                (console w)
         else mkWorld None (posted w)
                (toasts w ++ [mkToast error_toast
                                (or_else (message (data response))
                                         (failed_to_execute actionName))
                                "top-center" 5000])
                (console w)
     | Rejected error =>
         mkWorld None (posted w)
           (toasts w ++ [mkToast error_toast (failed_to_execute actionName)
                                 "top-center" 5000])
           (console w ++ [console_error_entry "Error executing camera action:" error])
     end).
Proof.
  by_outcome promise; reflexivity.
Qed.

(** One call of [executeAction] is its two halves run one after the other. *)
Lemma executeAction_split camera actionName outcome w :
  executeAction camera actionName outcome w
  = (executeAction_until_await camera actionName outcome
       ≫= executeAction_after_await actionName) w.
Proof.
  by_outcome outcome; reflexivity.
Qed.

Example executeAction_A_success :
  executeAction (CameraConfig.mk "front" None) "A"
    (Fulfilled (mkResponse (mkData true None))) idle
  = (Normal tt,
     mkWorld None ["camera/front/actions/A/trigger"]
       [mkToast success_toast (executed_successfully "A") "top-center" 3000] []).
Proof. reflexivity. Qed.

Example executeAction_A_busy :
  executeAction (CameraConfig.mk "front" None) "A"
    (Fulfilled (mkResponse (mkData false (Some "busy")))) idle
  = (Normal tt,
     mkWorld None ["camera/front/actions/A/trigger"]
       [mkToast error_toast "busy" "top-center" 5000] []).
Proof. reflexivity. Qed.

Example executeAction_A_rejected :
  executeAction (CameraConfig.mk "front" None) "A"
    (Rejected (Error "Network Error")) idle
  = (Normal tt,
     mkWorld None ["camera/front/actions/A/trigger"]
       [mkToast error_toast (failed_to_execute "A") "top-center" 5000]
       [console_error_entry "Error executing camera action:" (Error "Network Error")]).
Proof. reflexivity. Qed.

(** The quotes of the two texts are double quote characters. *)
Example executed_successfully_A_chars :
  executed_successfully "A"
  = String.concat EmptyString
      ["Action "; String (ascii_of_nat 34) EmptyString; "A";
       String (ascii_of_nat 34) EmptyString; " executed successfully"]
  /\ failed_to_execute "A"
     = String.concat EmptyString
         ["Failed to execute action "; String (ascii_of_nat 34) EmptyString; "A";
          String (ascii_of_nat 34) EmptyString].
Proof. split; reflexivity. Qed.

(** C1.  A call of [executeAction] for [actionName] first sets the execution
    state to [actionName] and sends the request; when the promise has
    settled, whatever its outcome (success, a failure answer, a rejection) and
    whatever happened to the world in between, the rest of the call completes
    without throwing and leaves the execution state [null].  So does the call
    as a whole. *)
Theorem executeAction_clears_state
    (camera : CameraConfig.t) (actionName : string)
    (outcome : Settled AxiosResponse) (w : World) :
  (exists w1,
      executeAction_until_await camera actionName outcome w = (Normal outcome, w1)
      /\ executingAction w1 = Some actionName)
  /\ (forall w2, exists w3,
        executeAction_after_await actionName outcome w2 = (Normal tt, w3)
        /\ executingAction w3 = None)
  /\ (exists w',
        executeAction camera actionName outcome w = (Normal tt, w')
        /\ executingAction w' = None).
Proof.
  split; [|split].
  - eexists. rewrite executeAction_until_await_run. split; reflexivity.
  - intros w2. eexists. rewrite executeAction_after_await_run.
    split; [reflexivity|].
    by_outcome outcome; reflexivity.
  - eexists. rewrite executeAction_split.
    erewrite bind_normal by apply executeAction_until_await_run.
    rewrite executeAction_after_await_run. split; [reflexivity|].
    by_outcome outcome; reflexivity.
Qed.

(** The world after one whole call of [executeAction]. *)
Lemma executeAction_run camera actionName outcome w :
  executeAction camera actionName outcome w
  = executeAction_after_await actionName outcome
      (mkWorld (Some actionName) (posted w ++ [trigger_url camera actionName])
               (toasts w) (console w)).
Proof.
  rewrite executeAction_split.
  by erewrite bind_normal by apply executeAction_until_await_run.
Qed.

(** C2, as the code has it.  One call of [executeAction] for [actionName]
    shows exactly one toast, at the top centre.  On a success answer it is a
    success toast with the text [Action "N" executed successfully] and 3000 ms,
    and the console is untouched.  On an answer with [success] false it is an
    error toast of 5000 ms whose text is the server's message when that is
    present and not empty, and [Failed to execute action "N"] when the message
    is absent or empty; the console is untouched.  On a rejected promise it is
    an error toast of 5000 ms with [Failed to execute action "N"], and the
    console gets exactly one error entry holding the error. *)
Theorem executeAction_notifies
    (camera : CameraConfig.t) (actionName : string)
    (outcome : Settled AxiosResponse) (w : World) :
  exists t,
    let w' := exec (executeAction camera actionName outcome) w in
    toasts w' = (toasts w ++ [t])%list
    /\ position t = "top-center"
    /\ (forall msg,
          outcome = Fulfilled (mkResponse (mkData true msg)) ->
          t = mkToast success_toast
                ("Action " +:+ dquote +:+ actionName +:+ dquote
                 +:+ " executed successfully") "top-center" 3000
          /\ console w' = console w)
    /\ (forall msg,
          outcome = Fulfilled (mkResponse (mkData false msg)) ->
          severity t = error_toast /\ duration t = 5000
          /\ console w' = console w
          /\ (forall s, msg = Some s -> s <> EmptyString -> text t = s)
          /\ (msg = None \/ msg = Some EmptyString ->
              text t = "Failed to execute action " +:+ dquote +:+ actionName +:+ dquote))
    /\ (forall error,
          outcome = Rejected error ->
          t = mkToast error_toast
                ("Failed to execute action " +:+ dquote +:+ actionName +:+ dquote)
                "top-center" 5000
          /\ console w'
             = (console w ++ [console_error_entry "Error executing camera action:" error])%list).
Proof.
  unfold exec. rewrite executeAction_run, executeAction_after_await_run.
  destruct outcome as [[[[] msg]]|error]; simpl; eexists;
    (split; [reflexivity|]); (split; [reflexivity|]).
  - split; [|split]; [intros msg' _; split; reflexivity | | ]; intros; discriminate.
  - split; [|split]; [intros; discriminate | | intros; discriminate].
    intros msg' Heq. injection Heq as <-.
    repeat split.
    + intros s -> Hs. destruct s; [exfalso; apply Hs; reflexivity | reflexivity].
    + intros [-> | ->]; reflexivity.
  - split; [|split]; [intros; discriminate | intros; discriminate |].
    intros error' Heq. injection Heq as <-. split; reflexivity.
Qed.

(** C2, counterexample to the claim as stated: the answer
    answer with [success] false whose message is the empty string carries a
    message, and the toast does not show that message but the fallback
    text. *)
Lemma executeAction_empty_message_not_shown :
  let answer := mkResponse (mkData false (Some EmptyString)) in
  let w' := exec (executeAction (CameraConfig.mk "front" None) "A" (Fulfilled answer)) idle in
  message (data answer) = Some EmptyString
  /\ text <$> toasts w' = [failed_to_execute "A"]
  /\ text <$> toasts w' <> [EmptyString].
Proof. repeat split. discriminate. Qed.

(** C10.  When the answer has [success] false, the toast shows the server's
    message exactly when that message is truthy, that is present and not the
    empty string; for the empty message, as for an absent one, it shows
    [Failed to execute action "N"]. *)
Theorem executeAction_empty_message_falls_back
    (camera : CameraConfig.t) (actionName : string) (msg : option string)
    (w : World) :
  let fallback := "Failed to execute action " +:+ dquote +:+ actionName +:+ dquote in
  let shown m :=
    text <$> drop (length (toasts w))
      (toasts (exec (executeAction camera actionName
                       (Fulfilled (mkResponse (mkData false m)))) w)) in
  shown (Some EmptyString) = [fallback]
  /\ shown None = [fallback]
  /\ shown msg = [if truthy msg then default fallback msg else fallback].
Proof.
  cbv zeta. unfold exec.
  rewrite !executeAction_run, !executeAction_after_await_run. simpl.
  rewrite !drop_app_length.
  repeat split. destruct msg as [[|c s]|]; reflexivity.
Qed.

(** ** The two buckets *)

Lemma buckets_cons action actions :
  (Action.standalone action = true
   /\ standaloneActions (action :: actions) = action :: standaloneActions actions
   /\ dropdownActions (action :: actions) = dropdownActions actions)
  \/ (Action.standalone action = false
      /\ standaloneActions (action :: actions) = standaloneActions actions
      /\ dropdownActions (action :: actions) = action :: dropdownActions actions).
Proof.
  unfold standaloneActions, dropdownActions.
  destruct (Action.standalone action) eqn:E; [left|right]; repeat split.
  - apply filter_cons_True. exact E.
  - apply filter_cons_False. rewrite E. discriminate.
  - apply filter_cons_False. rewrite E. discriminate.
  - apply filter_cons_True. rewrite E. reflexivity.
Qed.

Lemma buckets_nil : standaloneActions [] = [] /\ dropdownActions [] = [].
Proof. split; reflexivity. Qed.

(** C3.  [standaloneActions] holds exactly the actions whose [standalone]
    flag is true and [dropdownActions] exactly the others; their lengths add
    up to the length of the input; each is a subsequence of the input, so the
    input order is kept; and together they are a rearrangement of the input,
    so an action that occurs several times is kept as many times. *)
Theorem buckets_stable_partition (actions : list Action.t) :
  (forall a, a ∈ standaloneActions actions <-> a ∈ actions /\ Action.standalone a = true)
  /\ (forall a, a ∈ dropdownActions actions <-> a ∈ actions /\ Action.standalone a = false)
  /\ (length (standaloneActions actions) + length (dropdownActions actions)
      = length actions)%nat
  /\ standaloneActions actions `sublist_of` actions
  /\ dropdownActions actions `sublist_of` actions
  /\ (standaloneActions actions ++ dropdownActions actions)%list ≡ₚ actions.
Proof.
  split; [|split].
  - intros a. unfold standaloneActions. rewrite list_elem_of_filter. tauto.
  - intros a. unfold dropdownActions. rewrite list_elem_of_filter.
    destruct (Action.standalone a); simpl; intuition congruence.
  - induction actions as [|action actions (IHlen & IHs & IHd & IHp)].
    + repeat split; constructor.
    + destruct (buckets_cons action actions)
        as [(_ & -> & ->) | (_ & -> & ->)]; simpl.
      * repeat split; [lia | by constructor | by constructor | by constructor].
      * repeat split; [lia | by constructor | by constructor |].
        rewrite <- Permutation_middle. by constructor.
Qed.

(** ** Rendering *)

Lemma mapM_run {A B} (f : A -> JS B) (R : A -> B -> Prop)
    (d : A -> list ConsoleEntry) :
  (forall a w, exists b, f a w = (Normal b, log (d a) w) /\ R a b) ->
  forall l w, exists bs,
    mapM f l w = (Normal bs, log (flat_map d l) w) /\ Forall2 R l bs.
Proof.
  intros Hf l. induction l as [|a l IH]; intros w.
  - exists []. simpl. rewrite log_nil. split; [reflexivity|constructor].
  - destruct (Hf a w) as (b & Hb & HR).
    destruct (IH (log (d a) w)) as (bs & Hbs & HRs).
    exists (b :: bs). split; [|by constructor].
    simpl. erewrite bind_normal by exact Hb.
    erewrite bind_normal by exact Hbs.
    by rewrite log_log.
Qed.

Lemma renderStandalone_run cn fullscreen cameraEnabled state action w :
  exists e,
    renderStandalone cn fullscreen cameraEnabled state action w
    = (Normal e, log (warnings (Action.icon action)) w)
    /\ toggle_presents fullscreen cameraEnabled state action e.
Proof.
  eexists. unfold renderStandalone.
  erewrite bind_normal by apply getActionIcon_run.
  split; [reflexivity|].
  eexists. repeat split.
Qed.

Lemma renderDropdownMenuItem_run cn cameraEnabled state action w :
  exists i,
    renderDropdownMenuItem cn cameraEnabled state action w
    = (Normal i, log (warnings (Action.icon action)) w)
    /\ item_presents cameraEnabled state action i.
Proof.
  eexists. unfold renderDropdownMenuItem.
  erewrite bind_normal by apply getActionIcon_run.
  split; [reflexivity|].
  unfold item_presents, disabled_for, is_executing; simpl.
  repeat split.
  destruct cameraEnabled, (bool_decide (state = Some (Action.name action)));
    reflexivity.
Qed.

Lemma omap_id_Some {A} (l : list A) : omap id (Some <$> l) = l.
Proof.
  induction l as [|x l IH]; [reflexivity|].
  change (x :: omap id (Some <$> l) = x :: l). by rewrite IH.
Qed.

(** [renderDropdownMenu] gives nothing for an empty bucket and otherwise one
    menu whose content is the items of the grouped actions, in order. *)
Lemma renderDropdownMenu_run cn fullscreen cameraEnabled state grouped w :
  exists menu items,
    renderDropdownMenu cn fullscreen cameraEnabled state grouped w
    = (Normal menu, log (render_warnings grouped) w)
    /\ Forall2 (item_presents cameraEnabled state) grouped items
    /\ match grouped with
       | [] => menu = None
       | _ :: _ =>
           exists p,
             menu = Some (DropdownMenu_ p)
             /\ DropdownMenu.content p = items
             /\ DropdownMenu.key p = "dropdown-menu"
             /\ DropdownMenu.trigger_icon p = FaPlay
       end.
Proof.
  destruct (mapM_run (renderDropdownMenuItem cn cameraEnabled state)
              (item_presents cameraEnabled state)
              (fun a => warnings (Action.icon a))
              (renderDropdownMenuItem_run cn cameraEnabled state)
              grouped w)
    as (items & Hitems & HRi).
  unfold renderDropdownMenu.
  destruct grouped as [|a l].
  - exists None, []. simpl. unfold mret, JS_ret.
    rewrite log_nil. repeat split. constructor.
  - eexists _, items.
    change (length (a :: l) =? 0)%nat with false. cbv iota.
    erewrite bind_normal by exact Hitems.
    split; [reflexivity|]. split; [exact HRi|].
    eexists. repeat split.
Qed.

(** The shape of the component list: the toggles of the standalone actions,
    in order, followed by one menu holding the items of the grouped actions,
    in order, when there are any. *)
Lemma components_run cn fullscreen cameraEnabled state actions w :
  exists toggles menu_part items,
    components cn fullscreen cameraEnabled state actions w
    = (Normal (toggles ++ menu_part)%list,
       log (render_warnings (standaloneActions actions)
            ++ render_warnings (dropdownActions actions))%list w)
    /\ Forall2 (toggle_presents fullscreen cameraEnabled state)
               (standaloneActions actions) toggles
    /\ Forall2 (item_presents cameraEnabled state)
               (dropdownActions actions) items
    /\ match dropdownActions actions with
       | [] => menu_part = []
       | _ :: _ =>
           exists menu,
             menu_part = [DropdownMenu_ menu]
             /\ DropdownMenu.content menu = items
             /\ DropdownMenu.key menu = "dropdown-menu"
             /\ DropdownMenu.trigger_icon menu = FaPlay
       end.
Proof.
  destruct (mapM_run (renderStandalone cn fullscreen cameraEnabled state)
              (toggle_presents fullscreen cameraEnabled state)
              (fun a => warnings (Action.icon a))
              (renderStandalone_run cn fullscreen cameraEnabled state)
              (standaloneActions actions) w)
    as (toggles & Htoggles & HRt).
  fold (render_warnings (standaloneActions actions)) in Htoggles.
  destruct (renderDropdownMenu_run cn fullscreen cameraEnabled state
              (dropdownActions actions)
              (log (render_warnings (standaloneActions actions)) w))
    as (menu & items & Hmenu & HRi & Hshape).
  exists toggles, (omap id [menu]), items.
  unfold components.
  erewrite bind_normal by exact Htoggles.
  erewrite bind_normal by exact Hmenu.
  unfold mret, JS_ret.
  rewrite omap_app, omap_id_Some, log_log.
  split; [reflexivity|]. split; [exact HRt|]. split; [exact HRi|].
  destruct (dropdownActions actions) as [|a l].
  - by subst menu.
  - destruct Hshape as (p & -> & Hp). exists p. by split.
Qed.

Lemma toggles_shape fullscreen cameraEnabled state actions es :
  Forall2 (toggle_presents fullscreen cameraEnabled state) actions es ->
  exists ps,
    es = CameraFeatureToggle_ <$> ps
    /\ Forall2 (fun a p => toggle_presents fullscreen cameraEnabled state a
                             (CameraFeatureToggle_ p)) actions ps.
Proof.
  induction 1 as [|a e l es (p & -> & Hp) _ (ps & -> & Hps)].
  - exists []. split; [reflexivity|constructor].
  - exists (p :: ps). split; [reflexivity|].
    constructor; [|exact Hps]. exists p. by split.
Qed.

Lemma views_of_shape ps (menu : option DropdownMenu.props) :
  let es := ((CameraFeatureToggle_ <$> ps) ++ (DropdownMenu_ <$> option_list menu))%list in
  toggles_of es = ps /\ menus_of es = option_list menu.
Proof.
  simpl. unfold toggles_of, menus_of. rewrite !omap_app.
  assert (Hm : forall f, (forall p, f (DropdownMenu_ p) = None (A:=CameraFeatureToggle.props)) ->
                         omap f (DropdownMenu_ <$> option_list menu) = []).
  { intros f Hf. destruct menu; simpl; [by rewrite Hf|reflexivity]. }
  rewrite Hm by reflexivity. rewrite app_nil_r.
  split.
  - induction ps as [|p ps IH]; [reflexivity|].
    change (p :: omap (fun e => match e with
                                | CameraFeatureToggle_ p => Some p
                                | DropdownMenu_ _ => None
                                end) (CameraFeatureToggle_ <$> ps) = p :: ps).
    by rewrite IH.
  - assert (Ht : omap (fun e => match e with
                                | DropdownMenu_ p => Some p
                                | CameraFeatureToggle_ _ => None
                                end) (CameraFeatureToggle_ <$> ps) = []).
    { induction ps as [|p ps IH]; [reflexivity|exact IH]. }
    rewrite Ht. simpl. destruct menu; reflexivity.
Qed.

(** What [CameraActions] returns in every world: it never throws, it only
    writes icon warnings to the console, and its elements are the toggles of
    the standalone actions followed by at most one menu. *)
Lemma CameraActions_run cn camera fullscreen cameraEnabled w :
  let actions := configured camera in
  let state := executingAction w in
  let w' := log (render_warnings (standaloneActions actions)
                 ++ render_warnings (dropdownActions actions))%list w in
  exists ps menu node,
    CameraActions cn camera fullscreen cameraEnabled w = (Normal node, w')
    /\ components cn fullscreen cameraEnabled state actions w
       = (Normal (elements node), w')
    /\ elements node
       = ((CameraFeatureToggle_ <$> ps) ++ (DropdownMenu_ <$> option_list menu))%list
    /\ (forall c, elements node = [c] -> node = element c)
    /\ ((2 <= length (elements node))%nat -> node = array (elements node))
    /\ (actions = [] -> node = null)
    /\ Forall2 (fun a p => toggle_presents fullscreen cameraEnabled state a
                             (CameraFeatureToggle_ p))
               (standaloneActions actions) ps
    /\ match dropdownActions actions with
       | [] => menu = None
       | _ :: _ =>
           exists m,
             menu = Some m
             /\ Forall2 (item_presents cameraEnabled state)
                        (dropdownActions actions) (DropdownMenu.content m)
             /\ DropdownMenu.key m = "dropdown-menu"
             /\ DropdownMenu.trigger_icon m = FaPlay
       end.
Proof.
  intros actions state w'.
  destruct (components_run cn fullscreen cameraEnabled state actions w)
    as (toggles & menu_part & items & Hc & HRt & HRi & Hshape).
  fold w' in Hc.
  destruct (toggles_shape _ _ _ _ _ HRt) as (ps & -> & Hps).
  assert (exists menu,
             menu_part = DropdownMenu_ <$> option_list menu
             /\ match dropdownActions actions with
                | [] => menu = None
                | _ :: _ =>
                    exists m,
                      menu = Some m
                      /\ Forall2 (item_presents cameraEnabled state)
                                 (dropdownActions actions) (DropdownMenu.content m)
                      /\ DropdownMenu.key m = "dropdown-menu"
                      /\ DropdownMenu.trigger_icon m = FaPlay
                end) as (menu & -> & Hmenu).
  { destruct (dropdownActions actions) as [|a l].
    - exists None. by subst menu_part.
    - destruct Hshape as (m & -> & <- & Hkey & Hicon).
      exists (Some m). split; [reflexivity|]. exists m. by repeat split. }
  set (cs := ((CameraFeatureToggle_ <$> ps) ++ (DropdownMenu_ <$> option_list menu))%list) in *.
  assert (Hrun : exists node,
             CameraActions cn camera fullscreen cameraEnabled w = (Normal node, w')
             /\ elements node = cs
             /\ (forall c, cs = [c] -> node = element c)
             /\ ((2 <= length cs)%nat -> node = array cs)
             /\ (actions = [] -> node = null)).
  { unfold CameraActions.
    erewrite bind_normal by (unfold useState; reflexivity).
    fold state.
    destruct (CameraConfig.actions camera ≫= CameraActionsConfig.actions)
      as [l|] eqn:Hcfg.
    - assert (actions = l) as <-.
      { unfold actions, configured. by rewrite Hcfg. }
      destruct actions as [|a l] eqn:Hactions.
      + change (components cn fullscreen cameraEnabled state [] w)
          with (Normal (@nil Element), w) in Hc.
        injection Hc as Hcs Hw. rewrite <- Hw, <- Hcs.
        exists null. repeat split; try discriminate. simpl. lia.
      + change (length (a :: l) =? 0)%nat with false. cbv iota.
        erewrite bind_normal by exact Hc.
        destruct cs as [|c [|c' cs']]; unfold mret, JS_ret; simpl.
        * exists (array []). repeat split; try discriminate; simpl; lia.
        * exists (element c). repeat split; try discriminate.
          -- by intros ? [= <-].
          -- lia.
        * exists (array (c :: c' :: cs')). repeat split; discriminate.
    - assert (actions = []) as Hnil.
      { unfold actions, configured. by rewrite Hcfg. }
      rewrite Hnil in Hc.
      change (components cn fullscreen cameraEnabled state [] w)
        with (Normal (@nil Element), w) in Hc.
      injection Hc as Hcs Hw. rewrite <- Hw, <- Hcs.
      exists null. repeat split; try discriminate. simpl. lia. }
  destruct Hrun as (node & Hnode & Hel & Hone & Hmany & Hnull).
  exists ps, menu, node. rewrite Hel.
  repeat split; try assumption.
Qed.

(** ** The claims about the panel *)

(** The example of the specification: a standalone action "A" and a grouped
    action "B", with any icons, in any world. *)
Lemma CameraActions_A_B cn cameraName fullscreen cameraEnabled iconA iconB w :
  let A := Action.mk "A" iconA true in
  let B := Action.mk "B" iconB false in
  let camera := CameraConfig.mk cameraName
                  (Some (CameraActionsConfig.mk (Some [A; B]))) in
  exists toggleA menu itemB w',
    CameraActions cn camera fullscreen cameraEnabled w
    = (Normal (array [CameraFeatureToggle_ toggleA; DropdownMenu_ menu]), w')
    /\ toggle_presents fullscreen cameraEnabled (executingAction w) A
         (CameraFeatureToggle_ toggleA)
    /\ DropdownMenu.content menu = [itemB]
    /\ item_presents cameraEnabled (executingAction w) B itemB.
Proof.
  intros A B camera.
  destruct (CameraActions_run cn camera fullscreen cameraEnabled w)
    as (ps & menu & node & Hrun & _ & Hel & _ & Hmany & _ & Hps & Hmenu).
  change (configured camera) with [A; B] in *.
  change (standaloneActions [A; B]) with [A] in *.
  change (dropdownActions [A; B]) with [B] in *.
  destruct Hmenu as (m & -> & Hitems & _).
  apply Forall2_cons_inv_l in Hps as (p & ps' & Hp & Hnil & ->).
  apply Forall2_nil_inv_l in Hnil as ->.
  apply Forall2_cons_inv_l in Hitems as (i & is' & Hi & Hnil & Hcontent).
  apply Forall2_nil_inv_l in Hnil as ->.
  simpl in Hel. rewrite Hel in Hmany. rewrite Hmany in Hrun by (simpl; lia).
  exists p, m, i. eexists. split; [exact Hrun|].
  split; [exact Hp|]. split; [exact Hcontent|exact Hi].
Qed.

(** C5.  In every world [CameraActions] returns without throwing.  When the
    grouped bucket is not empty, its elements hold exactly one menu, it comes
    last, and its content is one item per grouped action, in order, each with
    the label and the disabled flag that a standalone control gets and a
    handler that calls [executeAction] for the action unless the item is
    disabled.  When the grouped bucket is empty there is no menu.  The other
    elements are the toggles of the standalone actions.  For the actions "A"
    (standalone) and "B" (grouped) the result is the toggle of "A" followed by
    a menu that holds the item of "B". *)
Theorem CameraActions_dropdown_menu
    (cn : list (option string) -> string) (camera : CameraConfig.t)
    (fullscreen cameraEnabled : bool) (w : World) :
  let actions := configured camera in
  let state := executingAction w in
  (exists node w',
      CameraActions cn camera fullscreen cameraEnabled w = (Normal node, w')
      /\ (dropdownActions actions <> [] ->
          exists menu,
            menus_of (elements node) = [menu]
            /\ last (elements node) = Some (DropdownMenu_ menu)
            /\ Forall2 (item_presents cameraEnabled state)
                       (dropdownActions actions) (DropdownMenu.content menu)
            /\ length (DropdownMenu.content menu) = length (dropdownActions actions))
      /\ (dropdownActions actions = [] -> menus_of (elements node) = [])
      /\ Forall2 (fun a p => toggle_presents fullscreen cameraEnabled state a
                               (CameraFeatureToggle_ p))
                 (standaloneActions actions) (toggles_of (elements node)))
  /\ (forall iconA iconB,
        let A := Action.mk "A" iconA true in
        let B := Action.mk "B" iconB false in
        exists toggleA menu itemB w',
          CameraActions cn
            (CameraConfig.mk (CameraConfig.name camera)
               (Some (CameraActionsConfig.mk (Some [A; B]))))
            fullscreen cameraEnabled w
          = (Normal (array [CameraFeatureToggle_ toggleA; DropdownMenu_ menu]), w')
          /\ toggle_presents fullscreen cameraEnabled state A
               (CameraFeatureToggle_ toggleA)
          /\ DropdownMenu.content menu = [itemB]
          /\ item_presents cameraEnabled state B itemB).
Proof.
  intros actions state. split.
  - destruct (CameraActions_run cn camera fullscreen cameraEnabled w)
      as (ps & menu & node & Hrun & _ & Hel & _ & _ & _ & Hps & Hmenu).
    fold actions state in Hps, Hmenu.
    destruct (views_of_shape ps menu) as [Htoggles Hmenus].
    rewrite <- Hel in Htoggles, Hmenus.
    exists node. eexists. split; [exact Hrun|].
    rewrite Htoggles, Hmenus, Hel.
    destruct (dropdownActions actions) as [|a l].
    + subst menu. repeat split; [intros Hne; by destruct Hne|exact Hps].
    + destruct Hmenu as (m & -> & Hitems & _).
      repeat split; [|discriminate|exact Hps].
      intros _. exists m. repeat split.
      * simpl. by rewrite last_snoc.
      * exact Hitems.
      * symmetry. exact (Forall2_length _ _ _ Hitems).
  - intros iconA iconB. apply CameraActions_A_B.
Qed.

(** C6.  The elements that [components] builds number one per standalone
    action plus one when the grouped bucket is not empty.  When there is
    exactly one, [CameraActions] returns that element itself; when there are
    two or more, it returns the array of them. *)
Theorem CameraActions_single_or_array
    (cn : list (option string) -> string) (camera : CameraConfig.t)
    (fullscreen cameraEnabled : bool) (w : World) :
  let actions := configured camera in
  exists cs node w',
    components cn fullscreen cameraEnabled (executingAction w) actions w
    = (Normal cs, w')
    /\ CameraActions cn camera fullscreen cameraEnabled w = (Normal node, w')
    /\ length cs
       = (length (standaloneActions actions)
          + match dropdownActions actions with [] => 0 | _ :: _ => 1 end)%nat
    /\ (forall c, cs = [c] -> node = element c)
    /\ ((2 <= length cs)%nat -> node = array cs).
Proof.
  intros actions.
  destruct (CameraActions_run cn camera fullscreen cameraEnabled w)
    as (ps & menu & node & Hrun & Hc & Hel & Hone & Hmany & _ & Hps & Hmenu).
  fold actions in Hc, Hps, Hmenu.
  exists (elements node), node. eexists.
  split; [exact Hc|]. split; [exact Hrun|]. split; [|by split].
  rewrite Hel, length_app, !length_fmap.
  rewrite (Forall2_length _ _ _ Hps).
  destruct (dropdownActions actions) as [|a l].
  - by subst menu.
  - by destruct Hmenu as (m & -> & _).
Qed.

Lemma disabled_for_true_iff cameraEnabled state action :
  disabled_for cameraEnabled state action = true
  <-> cameraEnabled = false \/ state = Some (Action.name action).
Proof.
  unfold disabled_for, is_executing.
  rewrite orb_true_iff, negb_true_iff, bool_decide_eq_true. reflexivity.
Qed.

(** C7.  In every world [CameraActions] returns without throwing, its toggles
    are those of the standalone actions and its menu items those of the
    grouped actions, in order, and the control of each action is disabled
    exactly when [cameraEnabled] is false or the execution state is the name
    of the action.  While [cameraEnabled] is false every control is disabled,
    whatever the execution state, and no menu item's handler calls
    [executeAction]. *)
Theorem controls_disabled_when
    (cn : list (option string) -> string) (camera : CameraConfig.t)
    (fullscreen cameraEnabled : bool) (w : World) :
  let actions := configured camera in
  let state := executingAction w in
  exists node w',
    CameraActions cn camera fullscreen cameraEnabled w = (Normal node, w')
    /\ Forall2 (fun a p =>
                  CameraFeatureToggle.onClick p = calls_executeAction (Action.name a)
                  /\ (CameraFeatureToggle.disabled p = true
                      <-> cameraEnabled = false \/ state = Some (Action.name a)))
               (standaloneActions actions) (toggles_of (elements node))
    /\ Forall2 (fun a i =>
                  DropdownMenuItem.key i = Action.name a
                  /\ (DropdownMenuItem.disabled i = true
                      <-> cameraEnabled = false \/ state = Some (Action.name a)))
               (dropdownActions actions) (menu_items node)
    /\ (cameraEnabled = false ->
        Forall (fun p => CameraFeatureToggle.disabled p = true)
               (toggles_of (elements node))
        /\ Forall (fun i => DropdownMenuItem.disabled i = true
                            /\ DropdownMenuItem.onSelect i = does_nothing)
                  (menu_items node)).
Proof.
  intros actions state.
  destruct (CameraActions_run cn camera fullscreen cameraEnabled w)
    as (ps & menu & node & Hrun & _ & Hel & _ & _ & _ & Hps & Hmenu).
  fold actions state in Hps, Hmenu.
  destruct (views_of_shape ps menu) as [Htoggles Hmenus].
  rewrite <- Hel in Htoggles, Hmenus.
  assert (Hitems : Forall2 (item_presents cameraEnabled state)
                           (dropdownActions actions) (menu_items node)).
  { unfold menu_items. rewrite Hmenus.
    destruct (dropdownActions actions) as [|a l].
    - subst menu. constructor.
    - destruct Hmenu as (m & -> & Hitems & _). simpl.
      by rewrite app_nil_r. }
  exists node. eexists. split; [exact Hrun|].
  rewrite Htoggles. split; [|split].
  - eapply Forall2_impl; [exact Hps|].
    intros a p (p' & [= <-] & _ & Hdis & Hclick & _).
    split; [exact Hclick|]. rewrite Hdis. apply disabled_for_true_iff.
  - eapply Forall2_impl; [exact Hitems|].
    intros a i (Hkey & _ & Hdis & _).
    split; [exact Hkey|]. rewrite Hdis. apply disabled_for_true_iff.
  - intros ->. split.
    + eapply Forall2_Forall_r; [exact Hps|]. apply Forall_true.
      intros a p (p' & [= <-] & _ & Hdis & _). exact Hdis.
    + eapply Forall2_Forall_r; [exact Hitems|]. apply Forall_true.
      intros a i (_ & _ & Hdis & Hsel & _). split; assumption.
Qed.

(** C8.  For a camera without actions (no [actions] section, no list in it,
    or an empty list) [CameraActions] returns [null] without throwing and
    leaves the world as it was: no toast, no console output, no request, no
    change of the execution state. *)
Theorem CameraActions_renders_nothing
    (cn : list (option string) -> string) (camera : CameraConfig.t)
    (fullscreen cameraEnabled : bool) (w : World) :
  configured camera = [] ->
  CameraActions cn camera fullscreen cameraEnabled w = (Normal null, w).
Proof.
  intros Hnil.
  destruct (CameraActions_run cn camera fullscreen cameraEnabled w)
    as (ps & menu & node & Hrun & _ & _ & _ & _ & Hnull & _).
  rewrite Hrun, (Hnull Hnil), Hnil. simpl. by rewrite log_nil.
Qed.

(** The theorem above at a camera whose action list is empty, rendered in
    the idle world. *)
Lemma CameraActions_renders_nothing_witness :
  configured (CameraConfig.mk "front" (Some (CameraActionsConfig.mk (Some [])))) = []
  /\ CameraActions cn_join
       (CameraConfig.mk "front" (Some (CameraActionsConfig.mk (Some []))))
       false true idle
     = (Normal null, idle).
Proof.
  split; [reflexivity|].
  apply (CameraActions_renders_nothing cn_join
           (CameraConfig.mk "front" (Some (CameraActionsConfig.mk (Some []))))
           false true idle).
  reflexivity.
Defined.

Example configured_no_section name :
  configured (CameraConfig.mk name None) = [].
Proof. reflexivity. Qed.

Example configured_no_list name :
  configured (CameraConfig.mk name (Some (CameraActionsConfig.mk None))) = [].
Proof. reflexivity. Qed.

Example configured_empty_list name :
  configured (CameraConfig.mk name (Some (CameraActionsConfig.mk (Some [])))) = [].
Proof. reflexivity. Qed.

(** ** Concrete renders *)

Example CameraActions_A_B_idle :
  CameraActions cn_join
    (front [Action.mk "A" None true; Action.mk "B" None false]) false true idle
  = (Normal
       (array
          [ CameraFeatureToggle_
              (CameraFeatureToggle.mk "p-2 md:p-0" "primary" FaPlay false "A"
                 (calls_executeAction "A") false);
            DropdownMenu_
              (DropdownMenu.mk "dropdown-menu"
                 "flex flex-col items-center justify-center rounded-lg bg-secondary p-2 text-secondary-foreground md:p-0"
                 FaPlay "size-5 text-secondary-foreground md:m-[6px]"
                 [ DropdownMenuItem.mk "B" "cursor-pointer flex items-center gap-2"
                     false (calls_executeAction "B") FaPlay "size-4" "B" ]) ]),
     idle).
Proof. vm_compute. reflexivity. Qed.

Example CameraActions_one_action_executing :
  CameraActions cn_join
    (front [Action.mk "Light" (Some "FaLightbulb") true]) true true
    (mkWorld (Some "Light") [] [] [])
  = (Normal
       (element
          (CameraFeatureToggle_
             (CameraFeatureToggle.mk "p-2 md:p-0 animate-pulse" "overlay"
                (ReactIcon "FaLightbulb") true "Executing Light..."
                (calls_executeAction "Light") true))),
     mkWorld (Some "Light") [] [] []).
Proof. vm_compute. reflexivity. Qed.

Example CameraActions_two_grouped_camera_off :
  elements
    (match result (CameraActions cn_join
                     (front [Action.mk "B" None false; Action.mk "C" None false])
                     false false) idle with
     | Normal node => node
     | Throw _ => null
     end)
  = [ DropdownMenu_
        (DropdownMenu.mk "dropdown-menu"
           "flex flex-col items-center justify-center rounded-lg bg-secondary p-2 text-secondary-foreground md:p-0"
           FaPlay "size-5 text-secondary-foreground md:m-[6px]"
           [ DropdownMenuItem.mk "B"
               "cursor-pointer flex items-center gap-2 opacity-50 cursor-not-allowed"
               true does_nothing FaPlay "size-4" "B";
             DropdownMenuItem.mk "C"
               "cursor-pointer flex items-center gap-2 opacity-50 cursor-not-allowed"
               true does_nothing FaPlay "size-4" "C" ]) ].
Proof. vm_compute. reflexivity. Qed.

(** Two overlapping calls: the second overwrites the state of the first, and
    the first, when it settles, clears the state while the second is still
    pending. *)
Example executeAction_overlap :
  let ok := Fulfilled (mkResponse (mkData true None)) in
  let camera := CameraConfig.mk "front" None in
  let w1 := exec (executeAction_until_await camera "A" ok) idle in
  let w2 := exec (executeAction_until_await camera "B" ok) w1 in
  let w3 := exec (executeAction_after_await "A" ok) w2 in
  let w4 := exec (executeAction_after_await "B" ok) w3 in
  executingAction <$> [idle; w1; w2; w3; w4]
  = [None; Some "A"; Some "B"; None; None].
Proof. reflexivity. Qed.

(** ** getAvailableIcons and ICON_CATEGORIES *)

#[export] Instance string_le_total : Total string_le.
Proof. intros a b. apply String.leb_total. Qed.

Lemma ICON_MAP_keys_NoDup : NoDup ICON_MAP_keys.
Proof. refine (bool_decide_unpack _ _). vm_compute. exact I. Qed.

Lemma shorthand_keys (identifiers : list string) :
  ((fun x => (x, ReactIcon x)) <$> identifiers).*1 = identifiers.
Proof.
  induction identifiers as [|x l IH]; [reflexivity|].
  change (x :: ((fun x => (x, ReactIcon x)) <$> l).*1 = x :: l). by rewrite IH.
Qed.

Lemma ICON_MAP_lookup_key name :
  name ∈ ICON_MAP_keys <-> ICON_MAP !! name = Some (ReactIcon name).
Proof.
  split.
  - intros Hin. unfold ICON_MAP, shorthand.
    apply elem_of_list_to_map_1.
    + rewrite shorthand_keys. apply ICON_MAP_keys_NoDup.
    + apply list_elem_of_fmap. exists name. split; [reflexivity|exact Hin].
  - intros H. apply (ICON_MAP_lookup_Some _ _ H).
Qed.

Lemma getAvailableIcons_elem name :
  name ∈ getAvailableIcons <-> name ∈ ICON_MAP_keys.
Proof. unfold getAvailableIcons. by rewrite merge_sort_Permutation. Qed.

(** X1.  [getAvailableIcons] lists the keys of [ICON_MAP], each once and
    nothing else, in ascending order. *)
Theorem getAvailableIcons_sorted_keys :
  Sorted string_le getAvailableIcons
  /\ NoDup getAvailableIcons
  /\ (forall name, name ∈ getAvailableIcons <-> is_Some (ICON_MAP !! name))
  /\ length getAvailableIcons = size ICON_MAP.
Proof.
  split; [apply (Sorted_merge_sort string_le)|].
  split; [|split].
  - unfold getAvailableIcons. rewrite merge_sort_Permutation.
    apply ICON_MAP_keys_NoDup.
  - intros name. rewrite getAvailableIcons_elem, ICON_MAP_lookup_key.
    split; [intros H; by exists (ReactIcon name)|].
    intros [r Hr]. destruct (ICON_MAP_lookup_Some _ _ Hr) as [-> _]. exact Hr.
  - vm_compute. reflexivity.
Qed.


Lemma snoc_neq {A} (l : list A) x : (l ++ [x])%list <> l.
Proof.
  intros H. apply (f_equal length) in H. rewrite length_app in H.
  simpl in H. lia.
Qed.

(** The two ways [getActionIcon] can go: silently, or with the warning. *)
Lemma getActionIcon_cases (iconName : option string) (w : World) :
  getActionIcon iconName w = (Normal (resolved iconName), w)
  /\ ~ (exists name,
           iconName = Some name /\ name <> EmptyString
           /\ (name ∉ getAvailableIcons) /\ (name ∉ Object_prototype))
  \/ exists name,
       iconName = Some name /\ name <> EmptyString
       /\ (name ∉ getAvailableIcons) /\ (name ∉ Object_prototype)
       /\ getActionIcon iconName w
          = (Normal FaPlay, log [not_found_warning name] w).
Proof.
  destruct iconName as [name|].
  2:{ left. split; [reflexivity|]. intros (n & Hn & _). discriminate. }
  destruct (decide (name = EmptyString)) as [->|Hne].
  { left. split; [reflexivity|]. intros (n & [= <-] & Hn & _). by apply Hn. }
  destruct (ICON_MAP !! name) as [r|] eqn:Hmap.
  { left. pose proof (getActionIcon_run (Some name) w) as Hrun.
    rewrite (getActionIcon_mapped _ _ w Hmap) in Hrun.
    injection Hrun as Hr _.
    split; [rewrite <- Hr; by apply getActionIcon_mapped|].
    intros (n & [= <-] & _ & Hn & _). apply Hn.
    apply getAvailableIcons_elem, ICON_MAP_lookup_key.
    destruct (ICON_MAP_lookup_Some _ _ Hmap) as [-> _]. exact Hmap. }
  destruct (decide (name ∈ Object_prototype)) as [Hin|Hnin].
  { left. pose proof (getActionIcon_run (Some name) w) as Hrun.
    rewrite (getActionIcon_inherited _ w Hin) in Hrun.
    injection Hrun as Hr _.
    split; [rewrite <- Hr; by apply getActionIcon_inherited|].
    intros (n & [= <-] & _ & _ & Hn). by apply Hn. }
  right. exists name. repeat split; try assumption.
  - intros Hav. apply getAvailableIcons_elem, ICON_MAP_lookup_key in Hav.
    rewrite Hmap in Hav. discriminate.
  - by apply getActionIcon_unknown.
Qed.

(** X3.  [getActionIcon] writes to the console exactly when it is given a
    non-empty name that [getAvailableIcons] does not list and that
    [Object.prototype] does not define; what it writes then is the one
    warning that quotes the name, and it returns [FaPlay]. *)
Theorem getActionIcon_warns_iff (iconName : option string) (w : World) :
  (console (exec (getActionIcon iconName) w) <> console w
   <-> exists name,
         iconName = Some name /\ name <> EmptyString
         /\ (name ∉ getAvailableIcons) /\ (name ∉ Object_prototype))
  /\ (console (exec (getActionIcon iconName) w) = console w
      \/ exists name,
           iconName = Some name
           /\ getActionIcon iconName w
              = (Normal FaPlay, log [not_found_warning name] w)).
Proof.
  unfold exec.
  destruct (getActionIcon_cases iconName w)
    as [(Hrun & Hno) | (name & -> & Hne & Hav & Hproto & Hrun)];
    rewrite Hrun; simpl.
  - split; [|by left]. split; [intros H; by destruct H|]. intros H. by destruct Hno.
  - split.
    + split; [|intros _; apply snoc_neq].
      intros _. exists name. by repeat split.
    + right. exists name. by split.
Qed.

(** X4.  Of the names that [ICON_CATEGORIES] lists, eleven are not returned
    by [getAvailableIcons]; [getActionIcon] answers each of them with
    [FaPlay] and a warning, and each other listed name with its own
    component and no warning. *)
Theorem ICON_CATEGORIES_stale :
  filter (fun name => name ∉ getAvailableIcons) categorized = stale_names
  /\ Forall (fun name =>
               forall w, getActionIcon (Some name) w
                         = (Normal FaPlay, log [not_found_warning name] w))
            stale_names
  /\ Forall (fun name =>
               forall w, getActionIcon (Some name) w
                         = (Normal (ReactIcon name), w))
            (filter (fun name => name ∈ getAvailableIcons) categorized).
Proof.
  split; [vm_compute; reflexivity|]. split.
  - unfold stale_names.
    repeat (apply List.Forall_cons;
            [intros w; apply getActionIcon_unknown;
             [discriminate | vm_compute; reflexivity
             | refine (bool_decide_eq_false_1 _ _); vm_compute; reflexivity]|]).
    apply List.Forall_nil.
  - apply Forall_forall. intros name Hin w.
    apply list_elem_of_filter in Hin as [Hav _].
    apply getActionIcon_mapped, ICON_MAP_lookup_key, getAvailableIcons_elem, Hav.
Qed.

(** ** More about the panel *)

Lemma buckets_empty actions :
  standaloneActions actions = [] -> dropdownActions actions = [] -> actions = [].
Proof.
  intros Hs Hd. destruct actions as [|a l]; [reflexivity|].
  destruct (buckets_cons a l) as [(_ & E & _) | (_ & _ & E)];
    [rewrite E in Hs | rewrite E in Hd]; discriminate.
Qed.

Lemma toggles_behaviour fullscreen cameraEnabled state actions ps :
  Forall2 (fun a p => toggle_presents fullscreen cameraEnabled state a
                        (CameraFeatureToggle_ p)) actions ps ->
  behaviour_of_element <$> (CameraFeatureToggle_ <$> ps)
  = (fun a => toggle_behaviour (expected_toggle cameraEnabled state a)) <$> actions.
Proof.
  induction 1 as [|a p l ps (p' & [= <-] & Ht & Hd & Hc & Hi & Ha & _) _ IH].
  - reflexivity.
  - rewrite !fmap_cons, IH. f_equal.
    unfold behaviour_of_element, expected_toggle.
    by rewrite Ht, Hd, Hc, Hi, Ha.
Qed.

Lemma items_behaviour cameraEnabled state actions items :
  Forall2 (item_presents cameraEnabled state) actions items ->
  behaviour_of_item <$> items = expected_item cameraEnabled state <$> actions.
Proof.
  induction 1 as [|a i l items (Hk & Hl & Hd & Hs & Hi) _ IH].
  - reflexivity.
  - rewrite !fmap_cons, IH. f_equal.
    unfold behaviour_of_item, expected_item.
    by rewrite Hk, Hl, Hd, Hs, Hi.
Qed.

(** The node that [CameraActions] returns, the world it leaves, and the
    behaviour of its elements, in full. *)
Lemma CameraActions_shape cn camera fullscreen cameraEnabled w :
  let actions := configured camera in
  let state := executingAction w in
  exists node,
    CameraActions cn camera fullscreen cameraEnabled w
    = (Normal node,
       log (render_warnings (standaloneActions actions)
            ++ render_warnings (dropdownActions actions))%list w)
    /\ behaviour_of_element <$> elements node
       = expected_elements cameraEnabled state actions
    /\ length (elements node) = element_count actions
    /\ (element_count actions = 0%nat -> node = null /\ actions = [])
    /\ (element_count actions = 1%nat -> exists c, node = element c)
    /\ ((2 <= element_count actions)%nat -> node = array (elements node)).
Proof.
  intros actions state.
  destruct (CameraActions_run cn camera fullscreen cameraEnabled w)
    as (ps & menu & node & Hrun & _ & Hel & Hone & Hmany & Hnull & Hps & Hmenu).
  fold actions state in Hrun, Hps, Hmenu, Hnull.
  exists node. split; [exact Hrun|].
  assert (Hlen : length (elements node) = element_count actions).
  { rewrite Hel, length_app, !length_fmap. unfold element_count.
    rewrite (Forall2_length _ _ _ Hps).
    destruct (dropdownActions actions); [by subst menu|].
    by destruct Hmenu as (m & -> & _). }
  split; [|split; [exact Hlen|]].
  - rewrite Hel, fmap_app. unfold expected_elements.
    rewrite (toggles_behaviour _ _ _ _ _ Hps). f_equal.
    destruct (dropdownActions actions) as [|a l]; [by subst menu|].
    destruct Hmenu as (m & -> & Hitems & Hkey & Hicon). simpl.
    by rewrite Hkey, Hicon, (items_behaviour _ _ _ _ Hitems).
  - split; [|split].
    + intros H0. unfold element_count in H0.
      assert (actions = []) as Hnil.
      { apply buckets_empty.
        - destruct (standaloneActions actions); [reflexivity|simpl in H0; lia].
        - destruct (dropdownActions actions); [reflexivity|lia]. }
      split; [by apply Hnull|exact Hnil].
    + intros H1. rewrite <- Hlen in H1.
      destruct (elements node) as [|c [|c' cs]] eqn:E; try discriminate.
      exists c. by apply Hone.
    + intros H2. apply Hmany. by rewrite Hlen.
Qed.

(** X5.  [CameraActions] returns [null] exactly when the camera has no
    actions, a single element exactly when the standalone actions and the
    menu (if any) make one element, and an array exactly when they make two
    or more; so it never returns an empty array or an array of one. *)
Theorem CameraActions_node_shape
    (cn : list (option string) -> string) (camera : CameraConfig.t)
    (fullscreen cameraEnabled : bool) (w : World) :
  let n := element_count (configured camera) in
  exists node w',
    CameraActions cn camera fullscreen cameraEnabled w = (Normal node, w')
    /\ length (elements node) = n
    /\ (node = null <-> configured camera = [])
    /\ ((exists c, node = element c) <-> n = 1%nat)
    /\ ((exists cs, node = array cs) <-> (2 <= n)%nat).
Proof.
  intros n.
  destruct (CameraActions_shape cn camera fullscreen cameraEnabled w)
    as (node & Hrun & _ & Hlen & H0 & H1 & H2).
  fold n in Hlen, H0, H1, H2.
  exists node. eexists. split; [exact Hrun|]. split; [exact Hlen|].
  assert (Hcount : configured camera = [] -> n = 0%nat).
  { intros Hnil. unfold n. rewrite Hnil. reflexivity. }
  destruct (decide (n = 0%nat)) as [E0|N0].
  - destruct (H0 E0) as [-> Hnil].
    split; [split; [intros _; exact Hnil|reflexivity]|].
    split; (split; [intros [x Hx]; discriminate|intros E; lia]).
  - destruct (decide (n = 1%nat)) as [E1|N1].
    + destruct (H1 E1) as [c ->].
      split; [split; [discriminate|intros Hnil; apply Hcount in Hnil; lia]|].
      split; [split; [intros _; exact E1|intros _; by exists c]|].
      split; [intros [x Hx]; discriminate|intros E; lia].
    + assert (2 <= n)%nat as E2 by lia.
      rewrite (H2 E2).
      split; [split; [discriminate|intros Hnil; apply Hcount in Hnil; lia]|].
      split; [split; [intros [x Hx]; discriminate|intros E; lia]|].
      split; [intros _; exact E2|intros _; by eexists].
Qed.

(** X6.  What [CameraActions] shows does not depend on [fullscreen] or on
    [cn]: with the same camera, camera-enabled flag and world, two renders
    return nodes of the same shape whose elements have the same titles,
    labels, keys, disabled flags, handlers and icons, and leave the same
    world. *)
Theorem CameraActions_presentation_independent
    (cn1 cn2 : list (option string) -> string) (fullscreen1 fullscreen2 : bool)
    (camera : CameraConfig.t) (cameraEnabled : bool) (w : World) :
  rendered (CameraActions cn1 camera fullscreen1 cameraEnabled) w
  = rendered (CameraActions cn2 camera fullscreen2 cameraEnabled) w
  /\ exec (CameraActions cn1 camera fullscreen1 cameraEnabled) w
     = exec (CameraActions cn2 camera fullscreen2 cameraEnabled) w.
Proof.
  destruct (CameraActions_shape cn1 camera fullscreen1 cameraEnabled w)
    as (n1 & Hrun1 & Hb1 & Hlen1 & H01 & H11 & H21).
  destruct (CameraActions_shape cn2 camera fullscreen2 cameraEnabled w)
    as (n2 & Hrun2 & Hb2 & Hlen2 & H02 & H12 & H22).
  unfold rendered, result, exec. rewrite Hrun1, Hrun2. simpl.
  split; [|reflexivity]. f_equal.
  set (n := element_count (configured camera)) in *.
  destruct (decide (n = 0%nat)) as [E0|N0].
  { destruct (H01 E0) as [-> _]. by destruct (H02 E0) as [-> _]. }
  destruct (decide (n = 1%nat)) as [E1|N1].
  { destruct (H11 E1) as [c1 ->]. destruct (H12 E1) as [c2 ->].
    simpl in Hb1, Hb2. rewrite <- Hb2 in Hb1.
    injection Hb1 as Hb1. simpl. by rewrite Hb1. }
  rewrite H21, H22 by lia. simpl. by rewrite Hb1, Hb2.
Qed.

Lemma warnings_unresolved action :
  warnings (Action.icon action)
  = match unresolved_icon action with
    | Some name => [not_found_warning name]
    | None => []
    end.
Proof.
  unfold warnings, exec, unresolved_icon.
  destruct (getActionIcon_cases (Action.icon action) idle)
    as [(Hrun & Hno) | (name & Hicon & Hne & Hav & Hproto & Hrun)];
    rewrite Hrun.
  - destruct (Action.icon action) as [name|]; [|reflexivity].
    destruct (decide _) as [Hyes|_]; [|reflexivity].
    exfalso. apply Hno. by exists name.
  - rewrite Hicon. destruct (decide _) as [_|Hnot]; [reflexivity|].
    exfalso. apply Hnot. by repeat split.
Qed.

Lemma render_warnings_unresolved actions :
  render_warnings actions = not_found_warning <$> omap unresolved_icon actions.
Proof.
  unfold render_warnings.
  induction actions as [|a l IH]; [reflexivity|].
  simpl. rewrite IH, warnings_unresolved.
  destruct (unresolved_icon a); reflexivity.
Qed.

(** X7.  All that a render does to the world is to add console warnings:
    one for each action whose icon name is not empty, not available and not
    inherited, for the standalone actions first and the grouped ones after;
    the execution state, the toasts and the requests stay as they were.  The
    warnings are written again by every further render. *)
Theorem CameraActions_only_warns
    (cn : list (option string) -> string) (camera : CameraConfig.t)
    (fullscreen cameraEnabled : bool) (w : World) :
  let actions := configured camera in
  let ws := not_found_warning
              <$> omap unresolved_icon
                    (standaloneActions actions ++ dropdownActions actions)%list in
  let render := CameraActions cn camera fullscreen cameraEnabled in
  exec render w
  = mkWorld (executingAction w) (posted w) (toasts w) (console w ++ ws)
  /\ exec render (exec render w)
     = mkWorld (executingAction w) (posted w) (toasts w) (console w ++ ws ++ ws).
Proof.
  intros actions ws render.
  assert (H : forall w0, exec render w0 = log ws w0).
  { intros w0. unfold render, exec.
    destruct (CameraActions_run cn camera fullscreen cameraEnabled w0)
      as (ps & menu & node & Hrun & _).
    rewrite Hrun. simpl. unfold ws.
    by rewrite omap_app, fmap_app, <- !render_warnings_unresolved. }
  rewrite !H. rewrite log_log. split; reflexivity.
Qed.

(** The toggles and the menu items of a render, action by action. *)
Lemma CameraActions_views cn camera fullscreen cameraEnabled w0 :
  exists node w',
    CameraActions cn camera fullscreen cameraEnabled w0 = (Normal node, w')
    /\ Forall2 (fun a p => toggle_presents fullscreen cameraEnabled
                             (executingAction w0) a (CameraFeatureToggle_ p))
               (standaloneActions (configured camera)) (toggles_of (elements node))
    /\ Forall2 (item_presents cameraEnabled (executingAction w0))
               (dropdownActions (configured camera)) (menu_items node).
Proof.
  destruct (CameraActions_run cn camera fullscreen cameraEnabled w0)
    as (ps & menu & node & Hrun & _ & Hel & _ & _ & _ & Hps & Hmenu).
  destruct (views_of_shape ps menu) as [Htoggles Hmenus].
  rewrite <- Hel in Htoggles, Hmenus.
  exists node. eexists. split; [exact Hrun|].
  unfold menu_items. rewrite Htoggles, Hmenus. split; [exact Hps|].
  destruct (dropdownActions (configured camera)) as [|a l].
  - subst menu. constructor.
  - destruct Hmenu as (m & -> & Hitems & _). simpl. by rewrite app_nil_r.
Qed.

(** X8.  While the request of [executeAction] for [actionName] is pending,
    a render shows the controls of the actions with that name as executing
    (label [Executing ...], disabled, menu handler off) and the other controls
    under their names, disabled exactly when the camera is; once the call is
    over, a render shows every control under its name. *)
Theorem CameraActions_shows_pending
    (cn : list (option string) -> string) (camera : CameraConfig.t)
    (fullscreen cameraEnabled : bool) (actionName : string)
    (outcome : Settled AxiosResponse) (w : World) :
  let actions := configured camera in
  let pending := exec (executeAction_until_await camera actionName outcome) w in
  let settled := exec (executeAction camera actionName outcome) w in
  (exists node w',
      CameraActions cn camera fullscreen cameraEnabled pending = (Normal node, w')
      /\ Forall2 (fun a p =>
                    if decide (Action.name a = actionName)
                    then CameraFeatureToggle.title p = executing_label actionName
                         /\ CameraFeatureToggle.disabled p = true
                         /\ CameraFeatureToggle.isActive p = true
                    else CameraFeatureToggle.title p = Action.name a
                         /\ CameraFeatureToggle.disabled p = negb cameraEnabled
                         /\ CameraFeatureToggle.isActive p = false)
                 (standaloneActions actions) (toggles_of (elements node))
      /\ Forall2 (fun a i =>
                    if decide (Action.name a = actionName)
                    then DropdownMenuItem.label i = executing_label actionName
                         /\ DropdownMenuItem.disabled i = true
                         /\ DropdownMenuItem.onSelect i = does_nothing
                    else DropdownMenuItem.label i = Action.name a
                         /\ DropdownMenuItem.disabled i = negb cameraEnabled
                         /\ DropdownMenuItem.onSelect i
                            = (if cameraEnabled
                               then calls_executeAction (Action.name a)
                               else does_nothing))
                 (dropdownActions actions) (menu_items node))
  /\ (exists node w',
        CameraActions cn camera fullscreen cameraEnabled settled = (Normal node, w')
        /\ Forall2 (fun a p =>
                      CameraFeatureToggle.title p = Action.name a
                      /\ CameraFeatureToggle.disabled p = negb cameraEnabled
                      /\ CameraFeatureToggle.isActive p = false)
                   (standaloneActions actions) (toggles_of (elements node))
        /\ Forall2 (fun a i =>
                      DropdownMenuItem.label i = Action.name a
                      /\ DropdownMenuItem.disabled i = negb cameraEnabled)
                   (dropdownActions actions) (menu_items node)).
Proof.
  intros actions pending settled.
  pose proof (CameraActions_views cn camera fullscreen cameraEnabled) as Hview.
  fold actions in Hview.
  split.
  - destruct (Hview pending) as (node & w' & Hrun & Hps & Hitems).
    exists node, w'. split; [exact Hrun|].
    assert (Hstate : executingAction pending = Some actionName) by reflexivity.
    rewrite Hstate in Hps, Hitems.
    assert (Hexec : forall a,
               is_executing (Some actionName) a
               = bool_decide (Action.name a = actionName)).
    { intros a. unfold is_executing. apply bool_decide_ext.
      split; [by intros [= ->]|by intros ->]. }
    split.
    + eapply Forall2_impl; [exact Hps|].
      intros a p (p' & [= <-] & Ht & Hd & _ & _ & Ha & _).
      rewrite Ht, Hd, Ha. unfold label_for, disabled_for. rewrite Hexec.
      destruct (decide (Action.name a = actionName)) as [E|N].
      * rewrite bool_decide_eq_true_2 by exact E. rewrite E.
        by rewrite orb_true_r.
      * rewrite bool_decide_eq_false_2 by exact N. by rewrite orb_false_r.
    + eapply Forall2_impl; [exact Hitems|].
      intros a i (_ & Hl & Hd & Hs & _).
      rewrite Hl, Hd, Hs. unfold label_for, disabled_for. rewrite Hexec.
      destruct (decide (Action.name a = actionName)) as [E|N].
      * rewrite bool_decide_eq_true_2 by exact E. rewrite E.
        by rewrite orb_true_r.
      * rewrite bool_decide_eq_false_2 by exact N. rewrite orb_false_r.
        by destruct cameraEnabled.
  - destruct (Hview settled) as (node & w' & Hrun & Hps & Hitems).
    exists node, w'. split; [exact Hrun|].
    assert (Hstate : executingAction settled = None).
    { unfold settled, exec. rewrite executeAction_run, executeAction_after_await_run.
      by_outcome outcome; reflexivity. }
    rewrite Hstate in Hps, Hitems.
    split.
    + eapply Forall2_impl; [exact Hps|].
      intros a p (p' & [= <-] & Ht & Hd & _ & _ & Ha & _).
      rewrite Ht, Hd, Ha. unfold label_for, disabled_for, is_executing.
      rewrite bool_decide_eq_false_2 by discriminate. by rewrite orb_false_r.
    + eapply Forall2_impl; [exact Hitems|].
      intros a i (_ & Hl & Hd & _).
      rewrite Hl, Hd. unfold label_for, disabled_for, is_executing.
      rewrite bool_decide_eq_false_2 by discriminate. by rewrite orb_false_r.
Qed.

(** ** More about executeAction *)

(** X9.  One call of [executeAction] sends exactly one request, to the
    trigger URL of the camera and the action, whatever the outcome; the part
    of the call that runs after the promise has settled sends nothing, so a
    failed call is not retried. *)
Theorem executeAction_posts_once
    (camera : CameraConfig.t) (actionName : string)
    (outcome : Settled AxiosResponse) (w : World) :
  posted (exec (executeAction camera actionName outcome) w)
  = (posted w
     ++ ["camera/" +:+ CameraConfig.name camera +:+ "/actions/" +:+ actionName
         +:+ "/trigger"])%list
  /\ (forall w2,
        posted (exec (executeAction_after_await actionName outcome) w2) = posted w2).
Proof.
  unfold exec. rewrite executeAction_run. split.
  - rewrite executeAction_after_await_run. by_outcome outcome; reflexivity.
  - intros w2. rewrite executeAction_after_await_run.
    by_outcome outcome; reflexivity.
Qed.

Lemma length_append (s t : string) :
  String.length (s +:+ t) = (String.length s + String.length t)%nat.
Proof. induction s as [|c s IH]; simpl; [reflexivity|by rewrite IH]. Qed.

Lemma append_inj_r (s1 s2 t : string) : s1 +:+ t = s2 +:+ t -> s1 = s2.
Proof.
  revert s2. induction s1 as [|c s1 IH]; intros [|c' s2] H.
  - reflexivity.
  - exfalso. apply (f_equal String.length) in H.
    rewrite !length_append in H. simpl in H. lia.
  - exfalso. apply (f_equal String.length) in H.
    rewrite !length_append in H. simpl in H. lia.
  - simpl in H. injection H as -> H. f_equal. by apply IH.
Qed.

(** X10.  For one camera, different action names have different trigger
    URLs.  The names are put into the URL as they are, so across cameras
    two different pairs of camera and action can share a URL. *)
Theorem trigger_url_action_inj :
  (forall camera n1 n2,
      trigger_url camera n1 = trigger_url camera n2 -> n1 = n2)
  /\ (exists c1 n1 c2 n2,
        (CameraConfig.name c1, n1) <> (CameraConfig.name c2, n2)
        /\ trigger_url c1 n1 = trigger_url c2 n2).
Proof.
  split.
  - intros camera n1 n2 H. unfold trigger_url in H.
    apply (inj (String.app "camera/")) in H.
    apply (inj (String.app (CameraConfig.name camera))) in H.
    apply (inj (String.app "/actions/")) in H.
    by apply append_inj_r in H.
  - exists (CameraConfig.mk "a" None), "b/actions/c",
           (CameraConfig.mk "a/actions/b" None), "c".
    split; [discriminate|reflexivity].
Qed.


(** ** The notification dialog *)

Module CustomNotificationDialogFacts.
Import CustomNotificationDialog.

Example js_length_examples :
  js_length "Front door" = 10%nat
  /\ js_length "é" = 1%nat
  /\ js_length "€" = 1%nat
  /\ js_length "😀" = 2%nat
  /\ String.length "😀" = 4%nat.
Proof. repeat split. Qed.


(** Where a call of [onSubmit] leaves the dialog once the promise has
    settled. *)
Lemma onSubmit_after_await_run promise d :
  onSubmit_after_await promise d
  = (Returned tt,
     match promise with
     | Resolved response =>
         if (status response =? 200)%Z
         then match data response with
              | Some body =>
                  mkDialog false false defaultValues no_errors (posted d)
                    (toasts d ++ [mkNotice success_toast (body_message body)
                                           "top-center"])
              | None =>
                  mkDialog (open d) false (values d) (errors d) (posted d)
                    (toasts d ++ [mkNotice error_toast
                                    (Some "Failed to send notification")
                                    "top-center"])
              end
         else mkDialog (open d) false (values d) (errors d) (posted d) (toasts d)
     | Failed error =>
         mkDialog (open d) false (values d) (errors d) (posted d)
           (toasts d ++ [mkNotice error_toast
                           (Some (or_else (error_message error)
                                          "Failed to send notification"))
                           "top-center"])
     end).
Proof.
  destruct promise as [[st [body|]]|error].
  - unfold onSubmit_after_await, try_catch_finally, on_response. simpl.
    unfold mbind, M_bind. simpl.
    destruct (st =? 200)%Z; reflexivity.
  - unfold onSubmit_after_await, try_catch_finally, on_response. simpl.
    unfold mbind, M_bind. simpl.
    destruct (st =? 200)%Z; reflexivity.
  - reflexivity.
Qed.

Lemma onSubmit_run values outcome d :
  onSubmit values outcome d
  = onSubmit_after_await outcome
      (mkDialog (open d) true (CustomNotificationDialog.values d) (errors d)
         (posted d ++ [("/api/notifications/send", values)]) (toasts d)).
Proof.
  destruct outcome as [[st [body|]]|error];
    unfold onSubmit, onSubmit_after_await, try_catch_finally, on_response;
    simpl; unfold mbind, M_bind; simpl;
    try (destruct (st =? 200)%Z); reflexivity.
Qed.

Lemma onSubmit_loading_after outcome d2 :
  exists d3,
    onSubmit_after_await outcome d2 = (Returned tt, d3)
    /\ posted d3 = posted d2.
Proof.
  eexists. rewrite onSubmit_after_await_run. split; [reflexivity|].
  destruct outcome as [[st [body|]]|error]; simpl;
    try (destruct (st =? 200)%Z); reflexivity.
Qed.


(** X12.  When the answer has status 200 and a body, [onSubmit] shows one
    success toast with the message of the body (or none, when the body has
    no message), puts the form back to its default values without errors and
    closes the dialog. *)
Theorem onSubmit_success
    (submitted : NotificationFormValues) (body : Body) (d : Dialog) :
  onSubmit submitted (Resolved (mkResponse 200 (Some body))) d
  = (Returned tt,
     mkDialog false false defaultValues no_errors
       (posted d ++ [("/api/notifications/send", submitted)])
       (toasts d ++ [mkNotice success_toast (body_message body) "top-center"])).
Proof. rewrite onSubmit_run, onSubmit_after_await_run. reflexivity. Qed.

(** X13.  When the promise is fulfilled with a status other than 200,
    [onSubmit] shows no toast at all and leaves the dialog open or closed as
    it was, with its fields and errors; only [isLoading] goes back to
    false. *)
Theorem onSubmit_other_status_is_silent
    (submitted : NotificationFormValues) (response : Response) (d : Dialog) :
  status response <> 200 ->
  onSubmit submitted (Resolved response) d
  = (Returned tt,
     mkDialog (open d) false (values d) (errors d)
       (posted d ++ [("/api/notifications/send", submitted)]) (toasts d)).
Proof.
  intros Hstatus. rewrite onSubmit_run, onSubmit_after_await_run. simpl.
  apply Z.eqb_neq in Hstatus. by rewrite Hstatus.
Qed.

(** The theorem above for an answer with status 201, in the closed dialog. *)
Lemma onSubmit_other_status_is_silent_witness :
  status (mkResponse 201 (Some (mkBody (Some "created")))) <> 200
  /\ onSubmit defaultValues
       (Resolved (mkResponse 201 (Some (mkBody (Some "created"))))) closed
     = (Returned tt,
        mkDialog false false defaultValues no_errors
          [("/api/notifications/send", defaultValues)] []).
Proof.
  split; [discriminate|].
  apply (onSubmit_other_status_is_silent defaultValues
           (mkResponse 201 (Some (mkBody (Some "created")))) closed).
  discriminate.
Defined.


Lemma handleSubmit_invalid outcome d :
  is_valid (notificationSchema (values d)) = false ->
  handleSubmit outcome d
  = (Returned tt,
     mkDialog (open d) (isLoading d) (values d) (notificationSchema (values d))
       (posted d) (toasts d)).
Proof. intros H. unfold handleSubmit. by rewrite H. Qed.

Lemma handleSubmit_valid outcome d :
  is_valid (notificationSchema (values d)) = true ->
  handleSubmit outcome d
  = onSubmit (values d) outcome
      (mkDialog (open d) (isLoading d) (values d) no_errors (posted d) (toasts d)).
Proof. intros H. unfold handleSubmit. by rewrite H. Qed.

(** X15.  Submitting the form while its fields have their default values
    sends nothing and shows no toast: the form shows [Title is required] and
    [Message is required].  This is the state in which a successful
    [onSubmit] leaves the form, so submitting again right after a success
    does not send the notification a second time. *)
Theorem handleSubmit_after_success_sends_nothing
    (submitted : NotificationFormValues) (body : Body)
    (next : Promise Response) (d : Dialog) :
  let d1 := run (onSubmit submitted (Resolved (mkResponse 200 (Some body)))) d in
  let d2 := run (handleSubmit next) d1 in
  values d1 = defaultValues
  /\ posted d2 = posted d1
  /\ toasts d2 = toasts d1
  /\ isLoading d2 = false
  /\ errors d2 = mkErrors (Some "Title is required") (Some "Message is required") false.
Proof.
  intros d1 d2. unfold d2, d1, run.
  rewrite onSubmit_run, onSubmit_after_await_run. cbn [snd].
  change (status (mkResponse 200 (Some body)) =? 200)%Z with true. cbv iota.
  cbn [data].
  rewrite handleSubmit_invalid by reflexivity. repeat split.
Qed.

Lemma ttl_valid_integer n :
  ttl_invalid (Some n) = false ->
  exists q z,
    n = Finite q /\ QArith_base.Qeq q (QArith_base.inject_Z z)
    /\ (0 <= z <= 86400)%Z.
Proof.
  unfold ttl_invalid. rewrite negb_false_iff, andb_true_iff.
  intros [Hint Hrange]. destruct n as [q| |neg]; try discriminate.
  simpl in Hint, Hrange. apply andb_true_iff in Hrange as [Hlo Hhi].
  apply QArith_base.Qle_bool_iff in Hlo, Hhi.
  apply Z.eqb_eq in Hint.
  destruct q as [num den]. unfold QArith_base.Qle in *. simpl in *.
  exists (QArith_base.Qmake num den), (num / Z.pos den)%Z.
  pose proof (Z.div_mod num (Z.pos den) ltac:(lia)) as Hdiv.
  rewrite Hint in Hdiv.
  split; [reflexivity|]. split.
  - unfold QArith_base.Qeq. simpl. lia.
  - nia.
Qed.

(** X16.  Submitting the form sends at most one request, and only one whose
    body passed the schema: the title has between 1 and 200 code units, the
    message between 1 and 500, and the ttl is absent or a whole number
    between 0 and 86400.  Otherwise nothing is sent, no toast is shown and
    the form shows the errors. *)
Theorem handleSubmit_sends_only_valid
    (outcome : Promise Response) (d : Dialog) :
  let d' := run (handleSubmit outcome) d in
  (posted d' = posted d /\ toasts d' = toasts d
   /\ errors d' = notificationSchema (values d)
   /\ is_valid (errors d') = false)
  \/ (posted d' = (posted d ++ [("/api/notifications/send", values d)])%list
      /\ (1 <= js_length (title (values d)) <= 200)%nat
      /\ (1 <= js_length (message (values d)) <= 500)%nat
      /\ (ttl (values d) = None
          \/ exists q z,
               ttl (values d) = Some (Finite q)
               /\ QArith_base.Qeq q (QArith_base.inject_Z z)
               /\ (0 <= z <= 86400)%Z)).
Proof.
  intros d'. unfold d', run.
  destruct (is_valid (notificationSchema (values d))) eqn:Hvalid.
  - right. rewrite handleSubmit_valid by exact Hvalid.
    destruct (onSubmit_loading_after outcome
                (mkDialog (open d) true (values d) no_errors
                   (posted d ++ [("/api/notifications/send", values d)])
                   (toasts d))) as (d3 & Hrun & Hposted).
    rewrite onSubmit_run. simpl. rewrite Hrun. simpl. rewrite Hposted. simpl.
    split; [reflexivity|].
    unfold notificationSchema, is_valid, string_min_max in Hvalid.
    destruct (js_length (title (values d)) <? 1)%nat eqn:Ht1; [discriminate|].
    destruct (200 <? js_length (title (values d)))%nat eqn:Ht2; [discriminate|].
    destruct (js_length (message (values d)) <? 1)%nat eqn:Hm1; [discriminate|].
    destruct (500 <? js_length (message (values d)))%nat eqn:Hm2; [discriminate|].
    destruct (ttl_invalid (ttl (values d))) eqn:Httl; [discriminate|].
    apply Nat.ltb_ge in Ht1, Ht2, Hm1, Hm2.
    split; [lia|]. split; [lia|].
    destruct (ttl (values d)) as [n|]; [right|by left].
    destruct (ttl_valid_integer n Httl) as (q & z & -> & Hq & Hz).
    by exists q, z.
  - left. rewrite handleSubmit_invalid by exact Hvalid. simpl.
    by repeat split.
Qed.

End CustomNotificationDialogFacts.
